(** * githaul: the status classifier and the grouped action orchestrator

    A shallow embedding of [githaul.py].  The program talks to the outside
    world only through [subprocess.run], two [pathlib] probes, the clock,
    the console and [input]; each of these is a request node of the program
    tree [Prog], so a function of the source becomes a tree whose branches
    are the answers the environment may give.  Properties are stated over
    the runs of such a tree ([Runs]) and, where a fact about the environment
    itself is needed, over an interpreter ([interp]) for an explicit world.

    What is taken for granted: the two [pathlib] probes answer (they raise
    nothing); [datetime.fromisoformat] is the environment's, as is the
    clock; nothing interrupts the program from outside.  A run ([Runs]) is
    one in which every message is printed: [console.print] goes through the
    markup of [rich], which raises on a closing tag that closes nothing, and
    several messages carry text captured from a command.  What a statement
    says of a run that returns holds of the program as it is; the runs that
    a message cuts short are those of [with_markup_errors]. *)

From Stdlib Require Import ZArith List String Ascii Bool Lia.
From Stdlib Require DecimalString DecimalPos DecimalZ Permutation.
Import ListNotations.
Local Open Scope string_scope.
Local Open Scope Z_scope.

(** ** Text

    Python [str] values are modelled as [string], one character per code
    point below 256. *)

Definition chars : Type := list ascii.

Definition code_point (c : ascii) : N := N_of_ascii c.

(** [str.isspace] on the code points below 256: TAB, LF, VT, FF, CR, the
    four separators FS GS RS US, SPACE, NEL and NBSP. *)
Definition isspace (c : ascii) : bool :=
  let n := code_point c in
  ((9 <=? n) && (n <=? 13))%N || ((28 <=? n) && (n <=? 32))%N
  || (n =? 133)%N || (n =? 160)%N.

Fixpoint lstrip_chars (s : chars) : chars :=
  match s with
  | [] => []
  | c :: s' => if isspace c then lstrip_chars s' else s
  end.

Definition rstrip_chars (s : chars) : chars := rev (lstrip_chars (rev s)).

(** [s.strip()] *)
Definition strip (s : string) : string :=
  string_of_list_ascii (rstrip_chars (lstrip_chars (list_ascii_of_string s))).

(** [bool(s)] for a string: true iff it is not empty. *)
Definition truthy (s : string) : bool :=
  match s with EmptyString => false | String _ _ => true end.

(** [s.split()]: the maximal runs of non-whitespace characters. *)
Fixpoint split_chars (cur : chars) (s : chars) : list chars :=
  match s with
  | [] => match cur with [] => [] | _ :: _ => [rev cur] end
  | c :: s' =>
      if isspace c
      then match cur with
           | [] => split_chars [] s'
           | _ :: _ => rev cur :: split_chars [] s'
           end
      else split_chars (c :: cur) s'
  end.

Definition split (s : string) : list string :=
  map string_of_list_ascii (split_chars [] (list_ascii_of_string s)).

Definition digit_val (c : ascii) : option Z :=
  let n := code_point c in
  if ((48 <=? n) && (n <=? 57))%N then Some (Z.of_N n - 48) else None.

(** The digits of an integer literal as [int] accepts them: single
    underscores are allowed between digits only. *)
Fixpoint int_digits (acc : Z) (after_digit : bool) (s : chars) : option Z :=
  match s with
  | [] => if after_digit then Some acc else None
  | c :: s' =>
      if Ascii.eqb c "_"
      then if after_digit then int_digits acc false s' else None
      else match digit_val c with
           | Some d => int_digits (10 * acc + d) true s'
           | None => None
           end
  end.

Definition is_digit (c : ascii) : bool :=
  match digit_val c with Some _ => true | None => false end.

(** The number of digits of a literal; the sign, the underscores and the
    surrounding white space do not count. *)
Definition digit_count (s : chars) : Z := Z.of_nat (List.length (filter is_digit s)).

(** The default of [sys.int_max_str_digits]: [int] refuses a literal with
    more digits. *)
Definition max_str_digits : Z := 4300.

(** [int(s)] in base ten; [None] stands for [ValueError]. *)
Definition int_of_str (s : string) : option Z :=
  let literal := list_ascii_of_string (strip s) in
  if digit_count literal >? max_str_digits then None else
  match literal with
  | c :: s' =>
      if Ascii.eqb c "-" then option_map Z.opp (int_digits 0 false s')
      else if Ascii.eqb c "+" then int_digits 0 false s'
      else int_digits 0 false (c :: s')
  | [] => None
  end.

(** [c.lower()] on the code points below 256: A-Z and the Latin-1 capitals
    (all of 192..222 but the multiplication sign). *)
Definition lower_char (c : ascii) : ascii :=
  let n := code_point c in
  if (((65 <=? n) && (n <=? 90)) ||
      ((192 <=? n) && (n <=? 222) && negb (n =? 215)))%N
  then ascii_of_N (n + 32) else c.

Fixpoint lower (s : string) : string :=
  match s with
  | EmptyString => EmptyString
  | String c s' => String (lower_char c) (lower s')
  end.

(** The line feed written [\n] in the source. *)
Definition newline : string := String (ascii_of_N 10) EmptyString.

(** The tabulation [git rev-list --count] puts between its two counts. *)
Definition tab : string := String (ascii_of_N 9) EmptyString.

(** [s.replace(c, t)] for a one-character pattern. *)
Fixpoint replace_char (c : ascii) (t : string) (s : string) : string :=
  match s with
  | EmptyString => EmptyString
  | String d s' =>
      if Ascii.eqb d c then t ++ replace_char c t s'
      else String d (replace_char c t s')
  end.

(** ** Paths

    A [pathlib.Path] that has been resolved, below the root: its
    components.  [p / name] is modelled for a name that is one plain
    component (not empty, not [.], without [/]): it appends the component;
    [str(p)] joins the components. *)

Definition Path : Type := list string.

Definition path_join (p : Path) (name : string) : Path := (p ++ [name])%list.

Fixpoint str_path (p : Path) : string :=
  match p with
  | [] => ""
  | c :: p' => "/" ++ c ++ str_path p'
  end.

(** [p.name]: the last component. *)
Definition path_name (p : Path) : string := last p "".

(** [p.parent / p.name] *)
Definition parent_then_name (p : Path) : Path :=
  match p with
  | [] => []
  | _ :: _ => path_join (removelast p) (path_name p)
  end.

(** ** What the environment answers *)

(** The outcome of [subprocess.run(cmd, capture_output=True, text=True,
    cwd=cwd, timeout=timeout)]: a completed process, or an exception
    (the program cannot be started, the timeout elapsed, ...). *)
Inductive ProcOutcome : Type :=
| Completed (returncode : Z) (stdout stderr : string)
| Failed (description : string).

(** A [datetime]: wall-clock microseconds and an optional UTC offset. *)
Record datetime : Type := mk_datetime {
  wall : Z;
  tzinfo : option Z
}.

(** [d.replace(tzinfo=None)] keeps the wall clock and drops the zone. *)
Definition replace_tzinfo_None (d : datetime) : datetime :=
  mk_datetime (wall d) None.

Definition microseconds_per_day : Z := 86400 * 1000000.

(** [(a - b).days] for two naive values: a [timedelta] is normalised with
    non-negative seconds and microseconds, so [days] is the floor. *)
Definition days_between (a b : datetime) : Z :=
  (wall a - wall b) / microseconds_per_day.

(** ** Programs

    A program is a tree: it returns, raises, or asks the environment for
    something and continues with the answer. *)
Inductive Prog (A : Type) : Type :=
| Ret (a : A)
| Raise (exn : string)
| SubprocessRun (cmd : list string) (cwd : option string) (timeout : Z)
                (k : ProcOutcome -> Prog A)
| IsDir (p : Path) (k : bool -> Prog A)
| IsFile (p : Path) (k : bool -> Prog A)
| FromIsoFormat (s : string) (k : option datetime -> Prog A)
| UtcNow (k : datetime -> Prog A)
| ConsolePrint (msg : string) (k : Prog A)
| InputLine (prompt : string) (k : option string -> Prog A).

Arguments Ret {A} a.
Arguments Raise {A} exn.
Arguments SubprocessRun {A} cmd cwd timeout k.
Arguments IsDir {A} p k.
Arguments IsFile {A} p k.
Arguments FromIsoFormat {A} s k.
Arguments UtcNow {A} k.
Arguments ConsolePrint {A} msg k.
Arguments InputLine {A} prompt k.

Fixpoint bind {A B : Type} (p : Prog A) (f : A -> Prog B) : Prog B :=
  match p with
  | Ret a => f a
  | Raise e => Raise e
  | SubprocessRun cmd cwd timeout k =>
      SubprocessRun cmd cwd timeout (fun o => bind (k o) f)
  | IsDir q k => IsDir q (fun b => bind (k b) f)
  | IsFile q k => IsFile q (fun b => bind (k b) f)
  | FromIsoFormat s k => FromIsoFormat s (fun d => bind (k d) f)
  | UtcNow k => UtcNow (fun d => bind (k d) f)
  | ConsolePrint msg k => ConsolePrint msg (bind k f)
  | InputLine prompt k => InputLine prompt (fun a => bind (k a) f)
  end.

Declare Scope prog_scope.
Delimit Scope prog_scope with prog.
Notation "x <- p ;; q" := (bind p (fun x => q))
  (at level 61, p at next level, right associativity) : prog_scope.
Notation "' pat <- p ;; q" := (bind p (fun x => match x with pat => q end))
  (at level 61, pat pattern, p at next level, right associativity) : prog_scope.
Notation "p ;; q" := (bind p (fun _ => q))
  (at level 61, right associativity) : prog_scope.
Local Open Scope prog_scope.

(** [console.print(msg)] *)
Definition console_print (msg : string) : Prog unit := ConsolePrint msg (Ret tt).

(** [for r in l: body(r)]; a [continue] is the body returning early. *)
Fixpoint for_each {R : Type} (l : list R) (body : R -> Prog unit) : Prog unit :=
  match l with
  | [] => Ret tt
  | r :: l' => body r ;; for_each l' body
  end.

(** ** Runs *)

Inductive Event : Type :=
| EvRun (cmd : list string) (cwd : option string) (timeout : Z) (o : ProcOutcome)
| EvIsDir (p : Path) (b : bool)
| EvIsFile (p : Path) (b : bool)
| EvFromIso (s : string) (d : option datetime)
| EvNow (d : datetime)
| EvPrint (msg : string)
| EvInput (prompt : string) (a : option string).

Inductive Result (A : Type) : Type :=
| Returned (a : A)
| Crashed (exn : string).

Arguments Returned {A} a.
Arguments Crashed {A} exn.

(** [Runs p t r]: [p] can ask and be answered as [t] records, ending in [r]. *)
Inductive Runs {A : Type} : Prog A -> list Event -> Result A -> Prop :=
| RunsRet a : Runs (Ret a) [] (Returned a)
| RunsRaise e : Runs (Raise e) [] (Crashed e)
| RunsSubprocess cmd cwd timeout k o t r :
    Runs (k o) t r ->
    Runs (SubprocessRun cmd cwd timeout k) (EvRun cmd cwd timeout o :: t) r
| RunsIsDir p k b t r :
    Runs (k b) t r -> Runs (IsDir p k) (EvIsDir p b :: t) r
| RunsIsFile p k b t r :
    Runs (k b) t r -> Runs (IsFile p k) (EvIsFile p b :: t) r
| RunsFromIso s k d t r :
    Runs (k d) t r -> Runs (FromIsoFormat s k) (EvFromIso s d :: t) r
| RunsNow k d t r :
    Runs (k d) t r -> Runs (UtcNow k) (EvNow d :: t) r
| RunsPrint msg k t r :
    Runs k t r -> Runs (ConsolePrint msg k) (EvPrint msg :: t) r
| RunsInput prompt k a t r :
    Runs (k a) t r -> Runs (InputLine prompt k) (EvInput prompt a :: t) r.

(** ** Worlds

    A world answers every request from its current state and moves on. *)
Record World (W : Type) : Type := mk_world {
  w_run : W -> list string -> option string -> Z -> ProcOutcome * W;
  w_is_dir : W -> Path -> bool;
  w_is_file : W -> Path -> bool;
  w_fromiso : string -> option datetime;
  w_now : W -> datetime * W;
  w_print : W -> string -> W;
  w_input : W -> string -> option string * W
}.

Arguments w_run {W} _ _ _ _ _.
Arguments w_is_dir {W} _ _ _.
Arguments w_is_file {W} _ _ _.
Arguments w_fromiso {W} _ _.
Arguments w_now {W} _ _.
Arguments w_print {W} _ _ _.
Arguments w_input {W} _ _ _.

Fixpoint interp {W A : Type} (env : World W) (p : Prog A) (w : W)
  : Result A * list Event * W :=
  match p with
  | Ret a => (Returned a, [], w)
  | Raise e => (Crashed e, [], w)
  | SubprocessRun cmd cwd timeout k =>
      let '(o, w1) := w_run env w cmd cwd timeout in
      let '(r, t, w2) := interp env (k o) w1 in
      (r, EvRun cmd cwd timeout o :: t, w2)
  | IsDir q k =>
      let b := w_is_dir env w q in
      let '(r, t, w2) := interp env (k b) w in
      (r, EvIsDir q b :: t, w2)
  | IsFile q k =>
      let b := w_is_file env w q in
      let '(r, t, w2) := interp env (k b) w in
      (r, EvIsFile q b :: t, w2)
  | FromIsoFormat s k =>
      let d := w_fromiso env s in
      let '(r, t, w2) := interp env (k d) w in
      (r, EvFromIso s d :: t, w2)
  | UtcNow k =>
      let '(d, w1) := w_now env w in
      let '(r, t, w2) := interp env (k d) w1 in
      (r, EvNow d :: t, w2)
  | ConsolePrint msg k =>
      let '(r, t, w2) := interp env k (w_print env w msg) in
      (r, EvPrint msg :: t, w2)
  | InputLine prompt k =>
      let '(a, w1) := w_input env w prompt in
      let '(r, t, w2) := interp env (k a) w1 in
      (r, EvInput prompt a :: t, w2)
  end.

(** ** The command runner *)

(** What [run_command] returns for an outcome of [subprocess.run]: the
    [return] of the [try] block, or the one of [except Exception as e]. *)
Definition result_of (o : ProcOutcome) : Z * string * string :=
  match o with
  | Completed returncode stdout stderr => (returncode, strip stdout, strip stderr)
  | Failed e => (99, "", e)
  end.

(** [run_command(cmd, cwd, timeout)] *)
Definition run_command (cmd : list string) (cwd : option string) (timeout : Z)
  : Prog (Z * string * string) :=
  SubprocessRun cmd cwd timeout (fun o => Ret (result_of o)).

(** The default of the [timeout] parameter. *)
Definition default_timeout : Z := 40.

Definition exit_code (o : ProcOutcome) : Z := fst (fst (result_of o)).
Definition captured_out (o : ProcOutcome) : string := snd (fst (result_of o)).
Definition captured_err (o : ProcOutcome) : string := snd (result_of o).

(** ** The status classifier *)

Definition repo_has_submodules (repo_path : Path) : Prog bool :=
  IsFile (path_join repo_path ".gitmodules") (fun b => Ret b).

(** [behind, ahead = map(int, ahead_behind.strip().split())] under
    [try ... except Exception: behind = ahead = 0]: exactly two fields,
    both integers, or else both counts are zero. *)
Definition parse_ahead_behind (ahead_behind : string) : Z * Z :=
  match map int_of_str (split (strip ahead_behind)) with
  | [Some behind; Some ahead] => (behind, ahead)
  | _ => (0, 0)
  end.

(** The [days_behind] of the source, from the outcome of the [git log]
    query. *)
Definition days_behind_of (code : Z) (date_str : string) : Prog Z :=
  if (code =? 0) && truthy date_str then
    FromIsoFormat (replace_char "Z" "+00:00" date_str) (fun parsed =>
      match parsed with
      | Some commit_date =>
          UtcNow (fun now =>
            Ret (days_between now (replace_tzinfo_None commit_date)))
      | None => Ret 0
      end)
  else Ret 0.

Definition git_status : list string := ["git"; "status"; "--porcelain"].
Definition git_branch : list string := ["git"; "rev-parse"; "--abbrev-ref"; "HEAD"].
Definition git_remote_update : list string := ["git"; "remote"; "update"].
Definition git_rev_list : list string :=
  ["git"; "rev-list"; "--left-right"; "--count"; "HEAD...@{u}"].
Definition git_ls_files : list string := ["git"; "ls-files"; "--unmerged"].
Definition git_log : list string :=
  ["git"; "log"; "--pretty=format:%cI"; "HEAD..@{u}"; "-1"].
Definition git_fetch : list string := ["git"; "fetch"].
Definition git_pull : list string := ["git"; "pull"].
Definition git_submodule_init : list string := ["git"; "submodule"; "init"].
Definition git_submodule_update : list string :=
  ["git"; "submodule"; "update"; "--recursive"].
Definition git_clone (remote_url dest : string) : list string :=
  ["git"; "clone"; remote_url; dest].

(** [return (status, branch, repo_has_submodules(repo_path))] *)
Definition answer (status branch : string) (repo_path : Path)
  : Prog (string * string * bool) :=
  s <- repo_has_submodules repo_path ;; Ret (status, branch, s).

Definition local_repo_status (repo_path : Path) (remote_url : string)
  : Prog (string * string * bool) :=
  let cwd := Some (str_path repo_path) in
  let git_dir := path_join repo_path ".git" in
  IsDir git_dir (fun is_dir =>
  if negb is_dir then Ret ("NOT PRESENT", "-", false) else
  '(code, out, _) <- run_command git_status cwd default_timeout ;;
  if negb (code =? 0) then answer "CONFLICT" "-" repo_path else
  let dirty := truthy (strip out) in
  '(code, branch, _) <- run_command git_branch cwd default_timeout ;;
  if negb (code =? 0) then answer "CONFLICT" "-" repo_path else
  '(code, _, _) <- run_command git_remote_update cwd default_timeout ;;
  if negb (code =? 0) then answer "CONFLICT" branch repo_path else
  '(code, ahead_behind, _) <- run_command git_rev_list cwd default_timeout ;;
  if negb (code =? 0)
  then answer (if dirty then "MODIFIED" else "SYNCHRONIZED") branch repo_path else
  let '(behind, ahead) := parse_ahead_behind ahead_behind in
  '(code, out, _) <- run_command git_ls_files cwd default_timeout ;;
  if (code =? 0) && truthy (strip out) then answer "CONFLICT" branch repo_path else
  if dirty && ((behind >? 0) || (ahead >? 0))
  then answer "DESYNCHRONIZED" branch repo_path else
  if dirty then answer "MODIFIED" branch repo_path else
  if behind >? 0 then
    '(code, date_str, _) <- run_command git_log cwd default_timeout ;;
    days_behind <- days_behind_of code date_str ;;
    if days_behind >=? 30 then answer "OBSOLETE" branch repo_path
    else answer "OUT OF DATE" branch repo_path
  else
  if ahead >? 0 then answer "MODIFIED" branch repo_path else
  answer "SYNCHRONIZED" branch repo_path).

(** One entry of the list [check_repos] returns. *)
Record RepoRecord : Type := mk_record {
  name : string;
  status : string;
  branch : string;
  path : Path;
  remote_url : string;
  has_submodules : bool
}.

(** What [repo['name']] finds in a descriptor of the listing: a string, a
    value that is not a string, or no such key.  It is all [check_repos]
    reads of a descriptor. *)
Inductive NameField : Type :=
| Name (s : string)
| NotAString
| NoName.

(** [check_repos] on the descriptors of the listing:
    [for repo in repos: ... checked.append({...})].  A missing key raises
    [KeyError] at [repo['name']]; a name that is not a string raises
    [TypeError] at [root_path / repo_name]. *)
Fixpoint check_descriptors (user alias : string) (org : option string)
    (repos : list NameField) (root_path : Path) : Prog (list RepoRecord) :=
  match repos with
  | [] => Ret []
  | NoName :: _ => Raise "KeyError"
  | NotAString :: _ => Raise "TypeError"
  | Name repo_name :: repos' =>
      let owner := match org with
                   | Some o => if truthy o then o else user
                   | None => user
                   end in
      let url := "git@" ++ alias ++ ":" ++ owner ++ "/" ++ repo_name ++ ".git" in
      let repo_path := path_join root_path repo_name in
      '(st, br, sub) <- local_repo_status repo_path url ;;
      rest <- check_descriptors user alias org repos' root_path ;;
      Ret (mk_record repo_name st br repo_path url sub :: rest)
  end.

(** [check_repos] on descriptors that all carry a name, given by their
    names. *)
Definition check_repos (user alias : string) (org : option string)
    (repos : list string) (root_path : Path) : Prog (list RepoRecord) :=
  check_descriptors user alias org (map Name repos) root_path.

(** ** The orchestrator *)

Definition color_for_status (st : string) : string :=
  if String.eqb st "NOT PRESENT" then "grey50"
  else if String.eqb st "OUT OF DATE" then "yellow"
  else if String.eqb st "OBSOLETE" then "magenta"
  else if String.eqb st "SYNCHRONIZED" then "green"
  else if String.eqb st "MODIFIED" then "yellow"
  else if String.eqb st "CONFLICT" then "red"
  else if String.eqb st "DESYNCHRONIZED" then "red"
  else "white".

(** The dictionary [get_grouped_repos] builds, in insertion order. *)
Definition Grouped : Type := list (string * list RepoRecord).

(** [grouped.setdefault(key, []).append(item)] *)
Fixpoint setdefault_append (key : string) (item : RepoRecord) (g : Grouped)
  : Grouped :=
  match g with
  | [] => [(key, [item])]
  | (k, l) :: g' =>
      if String.eqb k key then (k, (l ++ [item])%list) :: g'
      else (k, l) :: setdefault_append key item g'
  end.

Definition get_grouped_repos (checked : list RepoRecord) : Grouped :=
  fold_left (fun g item => setdefault_append (status item) item g) checked [].

(** [grouped.get(key, [])] *)
Fixpoint grouped_get (g : Grouped) (key : string) : list RepoRecord :=
  match g with
  | [] => []
  | (k, l) :: g' => if String.eqb k key then l else grouped_get g' key
  end.

(** What [ask_yes_no] returns for the line it has read. *)
Definition yes_no_reply (line : string) (default_yes : bool) : bool :=
  let ans := lower (strip line) in
  if String.eqb ans "" && default_yes then true
  else if String.eqb ans "" && negb default_yes then false
  else existsb (String.eqb ans) ["y"; "yes"].

(** [input] raises [EOFError] at the end of the input; nothing in
    [ask_yes_no] catches it. *)
Definition ask_yes_no (prompt : string) (default_yes : bool) : Prog bool :=
  let prompt_str :=
    prompt ++ " [" ++ (if default_yes then "Y/n" else "y/N") ++ "] " in
  InputLine prompt_str (fun line =>
    match line with
    | None => Raise "EOFError"
    | Some l => Ret (yes_no_reply l default_yes)
    end).

Definition ensure_submodules (repo_path : Path) : Prog unit :=
  let cwd := Some (str_path repo_path) in
  present <- repo_has_submodules repo_path ;;
  if negb present then Ret tt else
  '(code, _, err) <- run_command git_submodule_init cwd default_timeout ;;
  if negb (code =? 0) then
    console_print ("[yellow]Warning: git submodule init failed in "
                   ++ path_name repo_path ++ ": " ++ err ++ "[/yellow]")
  else
  '(code, _, err) <- run_command git_submodule_update cwd default_timeout ;;
  if negb (code =? 0) then
    console_print ("[yellow]Warning: git submodule update failed in "
                   ++ path_name repo_path ++ ": " ++ err ++ "[/yellow]")
  else
    console_print ("[green]Submodules updated in "
                   ++ path_name repo_path ++ "[/green]").

Definition out_of_date_statuses : list string := ["OUT OF DATE"; "OBSOLETE"].
Definition not_present_status : string := "NOT PRESENT".
Definition always_fetch_statuses : list string :=
  ["MODIFIED"; "CONFLICT"; "DESYNCHRONIZED"].

(** [[r for status in statuses for r in grouped.get(status, [])]] *)
Definition members (grouped : Grouped) (statuses : list string)
  : list RepoRecord :=
  flat_map (fun st => grouped_get grouped st) statuses.

Definition need_update (checked : list RepoRecord) : list RepoRecord :=
  members (get_grouped_repos checked) out_of_date_statuses.
Definition need_clone (checked : list RepoRecord) : list RepoRecord :=
  grouped_get (get_grouped_repos checked) not_present_status.
Definition need_fetch (checked : list RepoRecord) : list RepoRecord :=
  members (get_grouped_repos checked) always_fetch_statuses.

(** The line printed for a member of a group, with or without its status. *)
Definition listing_line (with_status : bool) (r : RepoRecord) : string :=
  let color := color_for_status (status r) in
  "  [" ++ color ++ "]" ++ name r ++ "[/" ++ color ++ "]"
  ++ (if with_status then " (" ++ status r ++ ")" else "").

Definition update_prompt : string :=
  "Update (fetch & pull) ALL out-of-date repositories?".
Definition clone_prompt : string := "Clone ALL missing repositories?".
Definition fetch_prompt : string :=
  "Fetch latest info for ALL modified/conflicted repositories? (never pulls, never overwrites)".

(** The three [if need_...: ... ask_yes_no(...) else: ... = False] blocks. *)
Definition confirm (group : list RepoRecord) (header : string)
    (with_status : bool) (prompt : string) : Prog bool :=
  match group with
  | [] => Ret false
  | _ :: _ =>
      console_print header ;;
      for_each group (fun r => console_print (listing_line with_status r)) ;;
      ask_yes_no prompt true
  end.

Definition skipped_dirty (r : RepoRecord) : string :=
  "[yellow]Skipped pull in " ++ name r ++ " due to local changes[/yellow]".
Definition skipped_conflict (r : RepoRecord) : string :=
  "[red]Skipped pull in " ++ name r ++ " due to merge conflicts[/red]".

Definition updating (r : RepoRecord) : string :=
  newline ++ "[cyan]Updating repository " ++ name r ++ "...[/cyan]".
Definition fetching (r : RepoRecord) : string :=
  newline ++ "[yellow]Fetching latest info for " ++ name r
  ++ " (" ++ status r ++ ")...[/yellow]".
Definition cloning (r : RepoRecord) : string :=
  newline ++ "[cyan]Cloning repository " ++ name r ++ "...[/cyan]".

(** The body of [for r in need_update]. *)
Definition update_body (update_all : bool) (r : RepoRecord) : Prog unit :=
  if negb update_all then Ret tt else
  let cwd := Some (str_path (path r)) in
  console_print (updating r) ;;
  '(code, _, err) <- run_command git_fetch cwd default_timeout ;;
  if negb (code =? 0) then
    console_print ("[red]git fetch failed for " ++ name r ++ "[/red]: " ++ err)
  else
  '(code, out, _) <- run_command git_status cwd default_timeout ;;
  let dirty := truthy (strip out) in
  '(code, out, _) <- run_command git_ls_files cwd default_timeout ;;
  let conflict := truthy (strip out) in
  if negb dirty && negb conflict then
    '(code, _, err) <- run_command git_pull cwd default_timeout ;;
    (if negb (code =? 0)
     then console_print ("[red]git pull failed for " ++ name r ++ "[/red]: " ++ err)
     else console_print ("[green]Pulled latest changes for " ++ name r ++ "[/green]")) ;;
    ensure_submodules (path r)
  else
    (if dirty then console_print (skipped_dirty r) else Ret tt) ;;
    (if conflict then console_print (skipped_conflict r) else Ret tt) ;;
    ensure_submodules (path r).

(** The body of [for r in need_clone]. *)
Definition clone_body (clone_all : bool) (r : RepoRecord) : Prog unit :=
  if negb clone_all then Ret tt else
  let dest := path r in
  console_print (cloning r) ;;
  '(code, _, err) <- run_command
      (git_clone (remote_url r) (str_path (parent_then_name dest)))
      None default_timeout ;;
  if negb (code =? 0) then
    console_print ("[red]git clone failed for " ++ name r ++ "[/red]: " ++ err)
  else
    ensure_submodules dest ;;
    console_print ("[green]Cloned " ++ name r ++ "[/green]").

(** The body of [for r in need_fetch]. *)
Definition fetch_body (fetch_all : bool) (r : RepoRecord) : Prog unit :=
  if negb fetch_all then Ret tt else
  let cwd := Some (str_path (path r)) in
  console_print (fetching r) ;;
  '(code, _, err) <- run_command git_fetch cwd default_timeout ;;
  if negb (code =? 0) then
    console_print ("[red]git fetch failed for " ++ name r ++ "[/red]: " ++ err)
  else
    ensure_submodules (path r) ;;
    console_print ("[green]Fetched for " ++ name r ++ "[/green]").

Definition do_updates_and_clones (checked : list RepoRecord) : Prog unit :=
  update_all <- confirm (need_update checked)
    (newline ++ "[bold yellow]The following repositories are out of date or obsolete:[/bold yellow]")
    true update_prompt ;;
  clone_all <- confirm (need_clone checked)
    (newline ++ "[bold]The following repositories are not present locally:[/bold]")
    false clone_prompt ;;
  fetch_all <- confirm (need_fetch checked)
    (newline ++ "[bold red]The following repositories have local changes/conflicts:[/bold red]")
    true fetch_prompt ;;
  for_each (need_update checked) (update_body update_all) ;;
  for_each (need_clone checked) (clone_body clone_all) ;;
  for_each (need_fetch checked) (fetch_body fetch_all).

(** A world without state: every request is answered from fixed tables. *)
Definition fixed_world
    (run : list string -> option string -> ProcOutcome)
    (dirs files : Path -> bool)
    (iso : string -> option datetime) (now : datetime)
    (line : string -> option string) : World unit :=
  mk_world unit
    (fun w cmd cwd _ => (run cmd cwd, w))
    (fun _ p => dirs p)
    (fun _ p => files p)
    iso
    (fun w => (now, w))
    (fun w _ => w)
    (fun w prompt => (line prompt, w)).

Definition result_in {W A : Type} (env : World W) (p : Prog A) (w : W)
  : Result A := fst (fst (interp env p w)).
Definition trace_in {W A : Type} (env : World W) (p : Prog A) (w : W)
  : list Event := snd (fst (interp env p w)).

(** The argument lists of the commands a trace ran, in order. *)
Fixpoint commands (t : list Event) : list (list string) :=
  match t with
  | [] => []
  | EvRun cmd _ _ _ :: t' => cmd :: commands t'
  | _ :: t' => commands t'
  end.

Fixpoint cmd_eqb (a b : list string) : bool :=
  match a, b with
  | [], [] => true
  | x :: a', y :: b' => String.eqb x y && cmd_eqb a' b'
  | _, _ => false
  end.

(** The outcome of the first run of [cmd] in a trace. *)
Fixpoint outcome_of (cmd : list string) (t : list Event) : option ProcOutcome :=
  match t with
  | [] => None
  | EvRun c _ _ o :: t' => if cmd_eqb c cmd then Some o else outcome_of cmd t'
  | _ :: t' => outcome_of cmd t'
  end.

(** What the classifier and the orchestrator read off a status query and
    an unmerged-path query. *)
Definition reports_dirty (o : ProcOutcome) : bool :=
  truthy (strip (captured_out o)).
Definition reports_unmerged (o : ProcOutcome) : bool :=
  (exit_code o =? 0) && truthy (strip (captured_out o)).

(** ** Reading a trace of the orchestrator *)

(** What the catch-up phase reads off the unmerged-path query: the exit
    code is not looked at. *)
Definition lists_unmerged (o : ProcOutcome) : bool :=
  truthy (strip (captured_out o)).

(** The warnings of the [else] branch of the catch-up phase. *)
Definition skip_warnings (r : RepoRecord) (dirty conflict : bool) : list Event :=
  ((if dirty then [EvPrint (skipped_dirty r)] else []) ++
   (if conflict then [EvPrint (skipped_conflict r)] else []))%list.

(** The operator answered yes to the catch-up prompt. *)
Definition update_confirmed (t : list Event) : Prop :=
  exists line,
    In (EvInput (update_prompt ++ " [Y/n] ") (Some line)) t /\
    yes_no_reply line true = true.

(** A command works on directory [dir]: it runs there, or it is a clone
    into it. *)
Definition targets (dir : string) (cmd : list string) (cwd : option string)
  : bool :=
  match cwd with
  | Some d => String.eqb d dir
  | None =>
      match cmd with
      | [g; c; _; dest] =>
          String.eqb g "git" && String.eqb c "clone" && String.eqb dest dir
      | _ => false
      end
  end.

(** The commands of a trace that work on [dir], each with the exit code
    [run_command] reported. *)
Fixpoint commands_in (dir : string) (t : list Event) : list (list string * Z) :=
  match t with
  | [] => []
  | EvRun cmd cwd _ o :: t' =>
      if targets dir cmd cwd then (cmd, exit_code o) :: commands_in dir t'
      else commands_in dir t'
  | _ :: t' => commands_in dir t'
  end.

(** What the submodule updater may run: nothing, a failed init, or an init
    and an update. *)
Definition updater_commands (l : list (list string * Z)) : Prop :=
  l = [] \/
  (exists c, c <> 0 /\ l = [(git_submodule_init, c)]) \/
  (exists c, l = [(git_submodule_init, 0); (git_submodule_update, c)]).

(** What a read-only refresh may run: nothing, a failed fetch, or a fetch
    and the submodule updater. *)
Definition refresh_commands (l : list (list string * Z)) : Prop :=
  l = [] \/
  (exists c, c <> 0 /\ l = [(git_fetch, c)]) \/
  (exists sub, l = (git_fetch, 0) :: sub /\ updater_commands sub).

(** The subcommand of a git command line. *)
Definition subcommand (cmd : list string) : string := nth 1 cmd "".

(** A pull restricted to fast-forwards carries the option that says so. *)
Definition ff_only (cmd : list string) : bool :=
  existsb (String.eqb "--ff-only") cmd.

(** A trace of prints only. *)
Definition only_prints (t : list Event) : Prop :=
  Forall (fun e => exists msg, e = EvPrint msg) t.

(** The prompts of a trace, each with the line that was read. *)
Fixpoint inputs (t : list Event) : list (string * option string) :=
  match t with
  | [] => []
  | EvInput q a :: t' => (q, a) :: inputs t'
  | _ :: t' => inputs t'
  end.

(** ** Fixed scenarios

    A scenario fixes what one repository answers to each query; every
    other command succeeds silently. *)
Record Scenario : Type := mk_scenario {
  has_metadata : bool;
  has_gitmodules : bool;
  on_status : ProcOutcome;
  on_branch : ProcOutcome;
  on_rev_list : ProcOutcome;
  on_ls_files : ProcOutcome;
  on_log : ProcOutcome;
  commit_time : option datetime;
  clock : datetime;
  typed : option string
}.

Definition world_of (s : Scenario) : World unit :=
  fixed_world
    (fun cmd _ =>
       if cmd_eqb cmd git_status then on_status s
       else if cmd_eqb cmd git_branch then on_branch s
       else if cmd_eqb cmd git_rev_list then on_rev_list s
       else if cmd_eqb cmd git_ls_files then on_ls_files s
       else if cmd_eqb cmd git_log then on_log s
       else Completed 0 "" "")
    (fun _ => has_metadata s)
    (fun _ => has_gitmodules s)
    (fun _ => commit_time s)
    (clock s)
    (fun _ => typed s).

Definition ok (out : string) : ProcOutcome := Completed 0 out "".

Definition day (n : Z) : datetime := mk_datetime (n * microseconds_per_day) None.

(** A clean clone, in step with its upstream. *)
Definition in_step : Scenario :=
  mk_scenario true false (ok "") (ok "main") (ok ("0" ++ tab ++ "0")) (ok "")
    (ok "") None (day 0) (Some "y").

(** No clone yet, but a directory that holds a [.gitmodules] file. *)
Definition bare_directory : Scenario :=
  mk_scenario false true (ok "") (ok "") (ok "") (ok "") (ok "") None (day 0) None.

(** A clean clone in step with its upstream whose unmerged-path query
    cannot be run. *)
Definition unmerged_query_fails : Scenario :=
  mk_scenario true false (ok "") (ok "main") (ok ("0" ++ tab ++ "0"))
    (Failed "timed out") (ok "") None (day 0) None.

(** A merge stopped by a conflict, on a branch without upstream. *)
Definition conflict_without_upstream : Scenario :=
  mk_scenario true false (ok "UU README.md") (ok "topic")
    (Completed 128 "" "fatal: no upstream configured for branch 'topic'")
    (ok ("100644 3b18e512 1" ++ tab ++ "README.md")) (ok "") None (day 0) None.

(** A merge stopped by a conflict, on a branch that has diverged. *)
Definition conflict_and_divergence : Scenario :=
  mk_scenario true false (ok "UU README.md") (ok "main") (ok ("1" ++ tab ++ "1"))
    (ok ("100644 3b18e512 1" ++ tab ++ "README.md")) (ok "") None (day 0) None.

(** Local changes on a branch that has diverged, nothing unmerged. *)
Definition dirty_and_divergence : Scenario :=
  mk_scenario true false (ok " M README.md") (ok "main") (ok ("1" ++ tab ++ "1"))
    (ok "") (ok "") None (day 0) None.

(** A clean clone whose branch and upstream have both moved on; the last
    upstream commit is three days old; the operator says yes. *)
Definition clean_but_diverged : Scenario :=
  mk_scenario true false (ok "") (ok "main") (ok ("1" ++ tab ++ "2")) (ok "")
    (ok "2024-05-01T12:00:00Z") (Some (mk_datetime 0 (Some 0))) (day 3)
    (Some "y").

(** A clean clone whose count reads [3<TAB>0]; the timestamp query answers
    with a commit that is exactly thirty days old. *)
Definition thirty_days_behind : Scenario :=
  mk_scenario true false (ok "") (ok "main") (ok ("3" ++ tab ++ "0")) (ok "")
    (ok "2024-05-01T12:00:00Z") (Some (mk_datetime 0 (Some 0))) (day 30)
    (Some "y").

(** After the fetch, neither re-check can be run. *)
Definition rechecks_fail : Scenario :=
  mk_scenario true false (Failed "timed out") (ok "main") (ok ("3" ++ tab ++ "0"))
    (Failed "timed out") (ok "") None (day 0) (Some "y").

(** After the fetch, the working tree has local changes. *)
Definition dirty_after_fetch : Scenario :=
  mk_scenario true true (ok " M README.md") (ok "main") (ok ("3" ++ tab ++ "0"))
    (ok "") (ok "") None (day 0) (Some "").

Definition proj : Path := ["srv"; "proj"].
Definition proj_url : string := "git@gh:alice/proj.git".

(** The record [check_repos] makes of [proj] with a given status. *)
Definition proj_record (st : string) : RepoRecord :=
  mk_record "proj" st "main" proj proj_url false.

(** The runs of the classifier and of the orchestrator in these scenarios. *)
Definition classify_in (s : Scenario) : Result (string * string * bool) :=
  result_in (world_of s) (local_repo_status proj proj_url) tt.
Definition classify_trace_in (s : Scenario) : list Event :=
  trace_in (world_of s) (local_repo_status proj proj_url) tt.
Definition reconcile_trace_in (s : Scenario) (st : string) : list Event :=
  trace_in (world_of s) (do_updates_and_clones [proj_record st]) tt.
Definition reconcile_in (s : Scenario) (st : string) : Result unit :=
  result_in (world_of s) (do_updates_and_clones [proj_record st]) tt.

(** The command lines the orchestrator is written to run. *)
Definition orchestrator_command (cmd : list string) : Prop :=
  cmd = git_fetch \/ cmd = git_status \/ cmd = git_ls_files \/ cmd = git_pull \/
  cmd = git_submodule_init \/ cmd = git_submodule_update \/
  exists url dest, cmd = git_clone url dest.

(** ** More text *)

(** [str(n)] for an integer. *)
Definition str_of_int (n : Z) : string :=
  DecimalString.NilZero.string_of_int (Z.to_int n).

(** The number of digits [n] is written with. *)
Definition decimal_digits (n : Z) : Z :=
  digit_count (list_ascii_of_string (str_of_int n)).

(** What [git rev-list --left-right --count HEAD...@{u}] prints: the number
    of commits that only [HEAD] reaches (the left side), a tabulation, and
    the number of commits that only the upstream reaches (the right
    side). *)
Definition rev_list_counts (head_only upstream_only : Z) : string :=
  str_of_int head_only ++ tab ++ str_of_int upstream_only.

(** [needle in hay] for two strings. *)
Fixpoint contains (needle hay : string) : bool :=
  prefix needle hay ||
  match hay with
  | EmptyString => false
  | String _ hay' => contains needle hay'
  end.

(** [s.index(c)] for a one-character pattern; [None] stands for
    [ValueError]. *)
Fixpoint str_index (c : ascii) (s : string) : option nat :=
  match s with
  | EmptyString => None
  | String d s' =>
      if Ascii.eqb d c then Some O else option_map S (str_index c s')
  end.

(** [c in s] for a one-character pattern. *)
Definition has_char (c : ascii) (s : string) : bool :=
  match str_index c s with Some _ => true | None => false end.

(** [s.split(c, 1)]: cut at the first [c], if there is one. *)
Fixpoint split_once (c : ascii) (s : string) : list string :=
  match s with
  | EmptyString => [EmptyString]
  | String d s' =>
      if Ascii.eqb d c then [EmptyString; s']
      else match split_once c s' with
           | a :: rest => String d a :: rest
           | [] => []
           end
  end.

(** [s.rsplit(c, 1)]: cut at the last [c], if there is one. *)
Fixpoint rsplit_once (c : ascii) (s : string) : list string :=
  match s with
  | EmptyString => [EmptyString]
  | String d s' =>
      match rsplit_once c s' with
      | [a; b] => [String d a; b]
      | _ => if Ascii.eqb d c then [EmptyString; s'] else [s]
      end
  end.

(** ** Start-up checks *)

(** [fatal(msg)]: the message, then [sys.exit(1)], in a run where the
    message is printed. *)
Definition fatal {A : Type} (msg : string) : Prog A :=
  ConsolePrint ("[bold red]FATAL:[/bold red] " ++ msg) (Raise "SystemExit(1)").

(** [a, b = parts]: exactly two parts, or [ValueError]. *)
Definition unpack2 {A : Type} (parts : list string)
    (k : string -> string -> Prog A) : Prog A :=
  match parts with
  | [a; b] => k a b
  | _ => Raise "ValueError"
  end.

(** The test [':' in arg and '@' in arg and arg.index(':') < arg.index('@')]. *)
Definition org_prefixed (arg : string) : bool :=
  has_char ":" arg && has_char "@" arg &&
  match str_index ":" arg, str_index "@" arg with
  | Some i, Some j => Nat.ltb i j
  | _, _ => false
  end.

Definition parse_org_user_alias (arg : string)
  : Prog (option string * string * string) :=
  let finish (org : option string) (user alias : string) :=
    if negb (truthy user) || negb (truthy alias)
    then fatal "Parsing failed: user or alias missing"
    else Ret (org, user, alias) in
  if org_prefixed arg then
    unpack2 (rsplit_once "@" arg) (fun org_user alias =>
    unpack2 (split_once ":" org_user) (fun org user =>
    finish (Some org) user alias))
  else if has_char "@" arg then
    unpack2 (split_once "@" arg) (fun user alias => finish None user alias)
  else
    fatal "Target must be in the form <user>@<alias> or <org>:<user>@<alias>".

(** The greeting [verify_ssh_access] looks for. *)
Definition ssh_greeting (user : string) : string :=
  "Hi " ++ user ++
  "! You've successfully authenticated, but GitHub does not provide shell access.".

Definition ssh_command (alias : string) : list string :=
  ["ssh"; "-T"; "git@" ++ alias].

Definition verify_ssh_access (user alias : string) : Prog unit :=
  '(code, out, err) <- run_command (ssh_command alias) None 12 ;;
  let expected := ssh_greeting user in
  let found :=
    if contains expected out then Some "STDOUT"
    else if contains expected err then Some "STDERR"
    else None in
  match found with
  | None =>
      let details :=
        "SSH returned code " ++ str_of_int code ++ newline ++ "STDOUT:" ++ newline
        ++ out ++ newline ++ "STDERR:" ++ newline ++ err in
      fatal ("SSH authentication failed or wrong user/alias:" ++ newline ++ details)
  | Some place =>
      console_print ("[green]SSH authentication to " ++ alias
                     ++ " verified for user " ++ user
                     ++ " (message in " ++ place ++ ")[/green]")
  end.

(** ** Listing the repositories

    The listing talks to the hosting service through [requests.get].  Its
    answers are a table of the model: what each request is answered, a
    response or a network failure.  No page is asked for twice, so a table
    covers every sequence of answers.  A program here yields what it printed
    and how it ended. *)

(** The [params] of a listing request. *)
Record ApiParams : Type := mk_params {
  per_page : Z;
  page : Z;
  type_ : string;
  sort : string
}.

(** What [requests.get] gives: a response (its status code, reason and
    text, and what [resp.json()] gives: a list, or [None] here when the
    body does not decode), or an exception.  A body that decodes to
    something else than a list is not among these answers. *)
Inductive HttpOutcome (Repo : Type) : Type :=
| Response (status_code : Z) (reason text : string) (json : option (list Repo))
| NetworkError (description : string).

Arguments Response {Repo} status_code reason text json.
Arguments NetworkError {Repo} description.

Section Listing.

Variable Repo : Type.
Variable requests_get : string -> ApiParams -> HttpOutcome Repo.

Definition fatal_line (msg : string) : string :=
  "[bold red]FATAL:[/bold red] " ++ msg.

(** [github_api_request(url, params)]: a network failure and a status
    other than 200 are fatal; the decoded body is returned otherwise. *)
Definition github_api_request (url : string) (params : ApiParams)
  : list string * Result (list Repo) :=
  match requests_get url params with
  | NetworkError e =>
      ([fatal_line ("GitHub API request failed (network): " ++ e)],
       Crashed "SystemExit(1)")
  | Response status_code reason text json =>
      if negb (status_code =? 200) then
        ([fatal_line ("GitHub API request failed: " ++ str_of_int status_code
                      ++ " " ++ reason ++ newline ++ "URL: " ++ url ++ newline
                      ++ text)],
         Crashed "SystemExit(1)")
      else match json with
           | Some chunk => ([], Returned chunk)
           | None => ([], Crashed "JSONDecodeError")
           end
  end.

(** One of the two [while True] loops of [get_github_repos], from the
    state [(page, repos)]; [fuel] bounds the number of requests, and [None]
    says it was used up. *)
Fixpoint listing_loop (fuel : nat) (url type_ : string) (page : Z)
    (repos : list Repo) : option (list string * Result (list Repo)) :=
  match fuel with
  | O => None
  | S fuel' =>
      match github_api_request url (mk_params 100 page type_ "full_name") with
      | (printed, Crashed e) => Some (printed, Crashed e)
      | (printed, Returned chunk) =>
          match chunk with
          | [] => Some (printed, Returned repos)
          | _ :: _ =>
              let repos' := (repos ++ chunk)%list in
              if (Z.of_nat (List.length chunk) <? 100)
              then Some (printed, Returned repos')
              else
                match listing_loop fuel' url type_ (page + 1) repos' with
                | Some (printed', r) => Some ((printed ++ printed')%list, r)
                | None => None
                end
          end
      end
  end.

Definition org_repos_url (org : string) : string :=
  "https://api.github.com/orgs/" ++ org ++ "/repos".
Definition user_repos_url (user : string) : string :=
  "https://api.github.com/users/" ++ user ++ "/repos".

(** [if org:] for an optional string. *)
Definition given (org : option string) : bool :=
  match org with Some o => truthy o | None => false end.

Definition get_github_repos (fuel : nat) (user : string) (org : option string)
  : option (list string * Result (list Repo)) :=
  match org with
  | Some o =>
      if truthy o then listing_loop fuel (org_repos_url o) "all" 1 []
      else listing_loop fuel (user_repos_url user) "owner" 1 []
  | None => listing_loop fuel (user_repos_url user) "owner" 1 []
  end.

End Listing.

Arguments github_api_request {Repo} requests_get url params.
Arguments listing_loop {Repo} requests_get fuel url type_ page repos.
Arguments get_github_repos {Repo} requests_get fuel user org.

(** ** Reading a trace of the classifier *)

(** The seven statuses. *)
Definition statuses : list string :=
  ["NOT PRESENT"; "OUT OF DATE"; "OBSOLETE"; "SYNCHRONIZED"; "MODIFIED";
   "CONFLICT"; "DESYNCHRONIZED"].

(** The queries of the classifier, in the order it makes them. *)
Definition classifier_queries : list (list string) :=
  [git_status; git_branch; git_remote_update; git_rev_list; git_ls_files;
   git_log].


(** A clean clone with a [.gitmodules] file, whose count reads [0<TAB>2]. *)
Definition ahead_only : Scenario :=
  mk_scenario true true (ok "") (ok "main") (ok ("0" ++ tab ++ "2")) (ok "")
    (ok "") None (day 0) None.

(** A clean clone that lacks two commits of its upstream and has none of
    its own: git prints [0<TAB>2]. *)
Definition lacks_two_commits : Scenario :=
  mk_scenario true false (ok "") (ok "main") (ok (rev_list_counts 0 2)) (ok "")
    (ok "") None (day 0) None.

(** A clean clone that lacks three commits of its upstream and has none of
    its own; the last of the three is forty days old. *)
Definition behind_only : Scenario :=
  mk_scenario true false (ok "") (ok "main") (ok (rev_list_counts 0 3)) (ok "")
    (ok "2024-05-01T12:00:00Z") (Some (mk_datetime 0 (Some 0))) (day 40) None.

(** A clean clone with three commits of its own that lacks none of its
    upstream, so that [git log HEAD..@{u}] prints nothing. *)
Definition local_commits_only : Scenario :=
  mk_scenario true false (ok "") (ok "main") (ok (rev_list_counts 3 0)) (ok "")
    (ok "") None (day 40) None.


(** ** Reading the decision off a trace of the classifier *)





(** ** Messages that cannot be printed

    [console.print] reads its argument as markup.  The tags are the
    bracketed texts that begin with a lower-case letter, [#], [/] or [@]
    and hold no opening bracket; a tag after an odd number of backslashes
    is text.  A tag that begins with [/] closes an earlier one, and
    [MarkupError] is raised when there is none to close. *)

Definition tag_start (c : ascii) : bool :=
  let n := code_point c in
  ((97 <=? n) && (n <=? 122))%N || Ascii.eqb c "#" || Ascii.eqb c "/"
  || Ascii.eqb c "@".

(** The text of a tag, from its first character to the closing bracket;
    [None] when an opening bracket or the end comes first. *)
Fixpoint tag_body (s : string) : option string :=
  match s with
  | EmptyString => None
  | String c s' =>
      if Ascii.eqb c "]" then Some EmptyString
      else if Ascii.eqb c "[" then None
      else option_map (String c) (tag_body s')
  end.

(** Whether the markup closes a tag while none is open.  [depth] counts the
    tags that are open; a closing tag is taken to close one of them, so
    that an answer [true] means that [MarkupError] is raised. *)
Fixpoint markup_raises_from (depth : nat) (escaped : bool) (s : string) : bool :=
  match s with
  | EmptyString => false
  | String c s' =>
      if Ascii.eqb c "\" then markup_raises_from depth (negb escaped) s'
      else if Ascii.eqb c "[" then
        match s' with
        | String d _ =>
            if tag_start d then
              match tag_body s' with
              | Some _ =>
                  if escaped then markup_raises_from depth false s'
                  else if Ascii.eqb d "/" then
                    match depth with
                    | O => true
                    | S depth' => markup_raises_from depth' false s'
                    end
                  else markup_raises_from (S depth) false s'
              | None => markup_raises_from depth false s'
              end
            else markup_raises_from depth false s'
        | EmptyString => false
        end
      else markup_raises_from depth false s'
  end.

Definition markup_raises (msg : string) : bool := markup_raises_from 0 false msg.

(** The program with the messages that cannot be printed: a
    [console.print] of such a message raises instead of printing. *)
Fixpoint with_markup_errors {A : Type} (p : Prog A) : Prog A :=
  match p with
  | Ret a => Ret a
  | Raise e => Raise e
  | SubprocessRun cmd cwd timeout k =>
      SubprocessRun cmd cwd timeout (fun o => with_markup_errors (k o))
  | IsDir q k => IsDir q (fun b => with_markup_errors (k b))
  | IsFile q k => IsFile q (fun b => with_markup_errors (k b))
  | FromIsoFormat s k => FromIsoFormat s (fun d => with_markup_errors (k d))
  | UtcNow k => UtcNow (fun d => with_markup_errors (k d))
  | ConsolePrint msg k =>
      if markup_raises msg then Raise "MarkupError"
      else ConsolePrint msg (with_markup_errors k)
  | InputLine prompt k => InputLine prompt (fun a => with_markup_errors (k a))
  end.

(** A repository under [/srv/w[/o]], out of date. *)
Definition locked_path : Path := ["srv"; "w["; "o]"; "proj"].
Definition locked_record : RepoRecord :=
  mk_record "proj" "OUT OF DATE" "main" locked_path proj_url false.

(** Another git process holds the index of that repository: the fetch and
    the two re-checks go through, and the pull gives up.  The repository
    has submodules, and the operator says yes. *)
Definition index_locked : World unit :=
  fixed_world
    (fun cmd _ =>
       if cmd_eqb cmd git_pull
       then Completed 128 ""
              "fatal: Unable to create '/srv/w[/o]/proj/.git/index.lock': File exists."
       else ok "")
    (fun _ => true) (fun _ => true) (fun _ => None) (day 0) (fun _ => Some "y").

(** ** Reading more of a trace of the orchestrator *)

(** A name that is one plain component of a path. *)
Definition plain_component (s : string) : bool :=
  truthy s && negb (String.eqb s ".") && negb (has_char "/" s).

(** The account whose repositories are checked: [org if org else user]. *)
Definition owner_of (user : string) (org : option string) : string :=
  match org with
  | Some o => if truthy o then o else user
  | None => user
  end.

(** The prompt of a group, when the group is not empty. *)
Definition asked (group : list RepoRecord) (prompt : string) : list string :=
  match group with
  | [] => []
  | _ :: _ => [prompt ++ " [Y/n] "]
  end.

(** The operator answered yes to the prompt of a phase. *)
Definition confirmed (prompt : string) (t : list Event) : Prop :=
  exists line,
    In (EvInput (prompt ++ " [Y/n] ") (Some line)) t /\
    yes_no_reply line true = true.

(** The messages of the submodule updater. *)
Definition init_failed (q : Path) (err : string) : string :=
  "[yellow]Warning: git submodule init failed in " ++ path_name q ++ ": "
  ++ err ++ "[/yellow]".
Definition update_failed (q : Path) (err : string) : string :=
  "[yellow]Warning: git submodule update failed in " ++ path_name q ++ ": "
  ++ err ++ "[/yellow]".
Definition submodules_updated (q : Path) : string :=
  "[green]Submodules updated in " ++ path_name q ++ "[/green]".

(** ** Reading where a pull stands in a trace *)

(** The events before a pull in [cwd] end with a fetch that succeeded, a
    status query that reported nothing and an unmerged-path query that
    listed nothing, all three in [cwd]. *)
Definition clean_recheck (cwd : option string) (pre : list Event) : Prop :=
  exists head f s u,
    pre = (head ++ [EvRun git_fetch cwd default_timeout f;
                    EvRun git_status cwd default_timeout s;
                    EvRun git_ls_files cwd default_timeout u])%list /\
    exit_code f = 0 /\ reports_dirty s = false /\ lists_unmerged u = false.

(** Every pull of [t] is run in the directory of a record of [l], and
    stands just after a clean re-check there. *)
Definition pulls_guarded (l : list RepoRecord) (t : list Event) : Prop :=
  forall pre cwd tmo o post,
    t = (pre ++ EvRun git_pull cwd tmo o :: post)%list ->
    (exists r, In r l /\ cwd = Some (str_path (path r))) /\
    tmo = default_timeout /\
    clean_recheck cwd pre.

(** The operator answers no to every question. *)
Definition operator_declines : Scenario :=
  mk_scenario true false (ok "") (ok "main") (ok ("3" ++ tab ++ "0")) (ok "")
    (ok "") None (day 0) (Some "n").

(** The statuses the orchestrator acts on. *)
Definition actionable_statuses : list string :=
  (out_of_date_statuses ++ [not_present_status] ++ always_fetch_statuses)%list.

(** No clone yet; the remote has submodules, and the operator says yes. *)
Definition not_yet_cloned : Scenario :=
  mk_scenario false true (ok "") (ok "") (ok "") (ok "") (ok "") None (day 0)
    (Some "yes").

(** ** The commands of each phase *)

Definition catch_up_inventory : list (list string) :=
  [git_fetch; git_status; git_ls_files; git_pull;
   git_submodule_init; git_submodule_update].
Definition acquisition_inventory (r : RepoRecord) : list (list string) :=
  [git_clone (remote_url r) (str_path (path r));
   git_submodule_init; git_submodule_update].
Definition refresh_inventory : list (list string) :=
  [git_fetch; git_submodule_init; git_submodule_update].

(** An event of the phase of record [x]: a command is one of [cmds], works
    on the directory of [x] and has the standard time limit. *)
Definition in_phase (cmds : list (list string)) (x : RepoRecord) (ev : Event)
  : Prop :=
  match ev with
  | EvRun cmd cwd tmo _ =>
      tmo = default_timeout /\
      targets (str_path (path x)) cmd cwd = true /\
      In cmd cmds
  | _ => True
  end.

(** ** Reading the start-up checks *)

(** The greeting stands somewhere in what the command wrote. *)
Definition greeted (user : string) (o : ProcOutcome) : Prop :=
  (exists a b, captured_out o = a ++ ssh_greeting user ++ b) \/
  (exists a b, captured_err o = a ++ ssh_greeting user ++ b).

(** The hosting service greets [alice] on the error stream and closes the
    session with exit code 1. *)
Definition service_greets : World unit :=
  fixed_world
    (fun _ _ =>
       Completed 1 ""
         ("Hi alice! You've successfully authenticated, but GitHub does not provide shell access."
          ++ newline))
    (fun _ => true) (fun _ => false) (fun _ => None) (day 0) (fun _ => None).

(** The address and the [type] parameter of the listing requests. *)
Definition endpoint (user : string) (org : option string) : string * string :=
  match org with
  | Some o => if truthy o then (org_repos_url o, "all")
              else (user_repos_url user, "owner")
  | None => (user_repos_url user, "owner")
  end.

(** A failing answer: an exception, or a status other than 200. *)
Definition failing {Repo : Type} (a : HttpOutcome Repo) : Prop :=
  match a with
  | NetworkError _ => True
  | Response status_code _ _ _ => status_code <> 200
  end.

(** A service with 101 repositories: a full first page, then one more. *)
Definition two_pages (url : string) (params : ApiParams) : HttpOutcome nat :=
  if page params =? 1 then Response 200 "OK" "" (Some (repeat O 100))
  else Response 200 "OK" "" (Some [1%nat]).

(** A service whose second page cannot be fetched. *)
Definition second_page_fails (url : string) (params : ApiParams)
  : HttpOutcome nat :=
  if page params =? 1 then Response 200 "OK" "" (Some (repeat O 100))
  else Response 403 "Forbidden" "rate limit exceeded" None.

(** ** General facts about runs *)

(** Inversion that cleans up after itself. *)
Ltac inv H := inversion H; subst; clear H.

(** One request node of a run, whatever the request. *)
Ltac runs_node :=
  first [ apply RunsSubprocess | apply RunsIsDir | apply RunsIsFile
        | apply RunsFromIso | apply RunsNow | apply RunsPrint
        | apply RunsInput ].

(** What a world makes of a program is one of its runs. *)
Lemma interp_Runs {W A : Type} (env : World W) (p : Prog A) :
  forall w, Runs p (trace_in env p w) (result_in env p w).
Proof.
  unfold trace_in, result_in.
  induction p as [a|e|cmd cwd timeout k IH|q k IH|q k IH|s k IH|k IH|msg k IH|prompt k IH];
    intro w; cbn [interp].
  - constructor.
  - constructor.
  - destruct (w_run env w cmd cwd timeout) as [o w1].
    specialize (IH o w1). destruct (interp env (k o) w1) as [[r t] w2].
    now constructor.
  - specialize (IH (w_is_dir env w q) w).
    destruct (interp env (k (w_is_dir env w q)) w) as [[r t] w2]. now constructor.
  - specialize (IH (w_is_file env w q) w).
    destruct (interp env (k (w_is_file env w q)) w) as [[r t] w2]. now constructor.
  - specialize (IH (w_fromiso env s) w).
    destruct (interp env (k (w_fromiso env s)) w) as [[r t] w2]. now constructor.
  - destruct (w_now env w) as [d w1].
    specialize (IH d w1). destruct (interp env (k d) w1) as [[r t] w2].
    now constructor.
  - specialize (IH (w_print env w msg)).
    destruct (interp env k (w_print env w msg)) as [[r t] w2]. now constructor.
  - destruct (w_input env w prompt) as [a w1].
    specialize (IH a w1). destruct (interp env (k a) w1) as [[r t] w2].
    now constructor.
Qed.

(** A run of [p ;; f] is a run of [p] that crashes, or a run of [p] that
    returns followed by a run of [f]. *)
Lemma Runs_bind_inv {A B : Type} (p : Prog A) (f : A -> Prog B) :
  forall t r, Runs (bind p f) t r ->
    (exists e, Runs p t (Crashed e) /\ r = Crashed e) \/
    (exists a t1 t2, Runs p t1 (Returned a) /\ Runs (f a) t2 r /\ t = (t1 ++ t2)%list).
Proof.
  induction p as [a|e|cmd cwd timeout k IH|q k IH|q k IH|s k IH|k IH|msg k IH|prompt k IH];
    intros t r H; cbn [bind] in H;
    [ right; exists a, (@nil Event), t; split; [apply RunsRet | split; [exact H | reflexivity]]
    | inv H; left; exists e; split; [apply RunsRaise | reflexivity]
    | inv H;
      lazymatch goal with
      | H' : Runs (bind _ _) _ _ |- _ =>
          apply IH in H';
          destruct H' as [(ex & He & ->)|(x & t1 & t2 & H1 & H2 & ->)];
          [ left; exists ex; split; [runs_node; exact He | reflexivity]
          | right; eexists x, (_ :: t1)%list, t2;
            split; [runs_node; exact H1 | split; [exact H2 | reflexivity]] ]
      end .. ].
Qed.

Lemma result_of_eta (o : ProcOutcome) :
  result_of o = (exit_code o, captured_out o, captured_err o).
Proof. unfold exit_code, captured_out, captured_err. now destruct (result_of o) as [[c s] e]. Qed.

(** Follows a run through an explicit program: one case per path. *)
Ltac runs_inv :=
  repeat match goal with
  | H : Runs (Ret _) _ _ |- _ => inv H
  | H : Runs (Raise _) _ _ |- _ => inv H
  | H : Runs (SubprocessRun _ _ _ _) _ _ |- _ => inv H
  | H : Runs (IsDir _ _) _ _ |- _ => inv H
  | H : Runs (IsFile _ _) _ _ |- _ => inv H
  | H : Runs (FromIsoFormat _ _) _ _ |- _ => inv H
  | H : Runs (UtcNow _) _ _ |- _ => inv H
  | H : Runs (ConsolePrint _ _) _ _ |- _ => inv H
  | H : Runs (InputLine _ _) _ _ |- _ => inv H
  | H : Runs (console_print _) _ _ |- _ => unfold console_print in H
  | H : Runs (repo_has_submodules _) _ _ |- _ => unfold repo_has_submodules in H
  | H : Runs (answer _ _ _) _ _ |- _ => unfold answer in H
  | H : Runs ?p _ _ |- _ =>
      match p with
      | context [result_of ?o] =>
          rewrite (result_of_eta o) in H; cbv beta iota in H
      end
  | H : Runs (if ?b then _ else _) _ _ |- _ => destruct b eqn:?
  | H : Runs (bind (if ?b then _ else _) _) _ _ |- _ => destruct b eqn:?
  | H : Runs (bind (days_behind_of _ _) _) _ _ |- _ => unfold days_behind_of in H
  | H : Runs (bind (match ?x with Some _ => _ | None => _ end) _) _ _ |- _ =>
      destruct x eqn:?
  | H : Runs (match ?x with Some _ => _ | None => _ end) _ _ |- _ => destruct x eqn:?
  | H : Runs (let '(_, _) := ?x in _) _ _ |- _ => destruct x eqn:?
  | H : Runs _ _ _ |- _ =>
      progress cbn [bind answer repo_has_submodules run_command console_print
                    days_behind_of] in H
  end.

Lemma negb_eqb_false (z : Z) : negb (z =? 0) = false -> z = 0.
Proof. destruct (Z.eqb_spec z 0); [auto | discriminate]. Qed.

Lemma negb_eqb_true (z : Z) : negb (z =? 0) = true -> z <> 0.
Proof. destruct (Z.eqb_spec z 0); [discriminate | auto]. Qed.

(** Turns the tests a run went through into facts. *)
Ltac tests_to_facts :=
  repeat match goal with
  | H : negb (_ =? 0) = false |- _ => apply negb_eqb_false in H
  | H : negb (_ =? 0) = true |- _ => apply negb_eqb_true in H
  | H : negb ?b = true |- _ => apply negb_true_iff in H
  | H : negb ?b = false |- _ => apply negb_false_iff in H
  | H : _ && _ = true |- _ => apply andb_true_iff in H; destruct H
  | H : _ && _ = false |- _ => apply andb_false_iff in H; destruct H
  | H : _ || _ = false |- _ => apply orb_false_iff in H; destruct H
  | H : _ || _ = true |- _ => apply orb_true_iff in H; destruct H
  | H : (_ =? _) = true |- _ => apply Z.eqb_eq in H
  | H : (_ =? _) = false |- _ => apply Z.eqb_neq in H
  | H : (_ >? _) = true |- _ => apply Z.gtb_lt in H
  | H : (_ >? _) = false |- _ => rewrite Z.gtb_ltb in H; apply Z.ltb_ge in H
  | H : (_ >=? _) = true |- _ => rewrite Z.geb_leb in H; apply Z.leb_le in H
  | H : (_ >=? _) = false |- _ => rewrite Z.geb_leb in H; apply Z.leb_gt in H
  end.

Lemma truthy_true (s : string) : truthy s = true <-> s <> "".
Proof. destruct s; cbn; split; intros; congruence. Qed.

Lemma truthy_false (s : string) : truthy s = false <-> s = "".
Proof. destruct s; cbn; split; intros; congruence. Qed.

(** Identifies two readings of the same pair of counts. *)
Ltac same_counts :=
  repeat match goal with
  | H1 : ?x = (_, _), H2 : ?x = (_, _) |- _ =>
      rewrite H1 in H2; injection H2 as ? ?; subst
  end.

(** Proves a membership in an explicit trace. *)
Ltac in_trace :=
  cbn [In]; repeat (first [ left; reflexivity | right ]).

(** Splits a membership in an explicit trace into its cases. *)
Ltac in_cases H :=
  cbn [In] in H;
  repeat match type of H with
         | _ \/ _ => destruct H as [H|H]
         end;
  try (exfalso; exact H); try discriminate H.

(** Evaluates [outcome_of] on an explicit trace. *)
Ltac eval_outcome H :=
  cbn [outcome_of] in H;
  repeat (match type of H with
          | context [cmd_eqb ?a ?b] =>
              let v := eval vm_compute in (cmd_eqb a b) in
              change (cmd_eqb a b) with v in H
          end; cbv iota in H; cbn [outcome_of] in H);
  first [ discriminate H | injection H as H; try subst ].

Ltac eval_outcomes :=
  repeat match goal with
  | H : outcome_of _ (_ :: _) = Some _ |- _ => eval_outcome H
  | H : outcome_of _ [] = Some _ |- _ => discriminate H
  end.

(** ** The command runner *)

(** C9.  [run_command] returns a triple in every world and from every
    state; each of its runs is one call of [subprocess.run] and ends with
    the triple built from the outcome, never with an exception; when
    [subprocess.run] fails, the triple is the exit code 99, which is not
    zero, an empty output and the description of the failure. *)
Theorem run_command_always_returns (cmd : list string) (cwd : option string)
    (timeout : Z) :
  (forall (W : Type) (env : World W) (w : W),
     result_in env (run_command cmd cwd timeout) w =
     Returned (result_of (fst (w_run env w cmd cwd timeout)))) /\
  (forall t r, Runs (run_command cmd cwd timeout) t r ->
     exists o, t = [EvRun cmd cwd timeout o] /\ r = Returned (result_of o)) /\
  (forall e, result_of (Failed e) = (99, "", e) /\ exit_code (Failed e) <> 0).
Proof.
  split; [|split].
  - intros W env w. unfold result_in, run_command. cbn [interp].
    destruct (w_run env w cmd cwd timeout) as [o w1]. reflexivity.
  - intros t r H. unfold run_command in H. inv H.
    match goal with Hk : Runs (Ret _) _ _ |- _ => inv Hk end.
    eexists. split; reflexivity.
  - intros e. split; [reflexivity | discriminate].
Qed.

Lemma run_command_always_returns_witness :
  result_in (world_of unmerged_query_fails)
    (run_command git_ls_files (Some (str_path proj)) default_timeout) tt =
  Returned (99, "", "timed out").
Proof.
  destruct (run_command_always_returns git_ls_files (Some (str_path proj))
              default_timeout) as [H _].
  exact (H unit (world_of unmerged_query_fails) tt).
Defined.

(** ** The status classifier *)

(** C5, as the code has it.  When the metadata directory is missing, the
    classifier answers NOT PRESENT with the branch ["-"] and the submodule
    flag false, whatever the remote is; the probe of the metadata
    directory is the only thing it asks: no submodule check is made and no
    command is run. *)
Theorem not_present_when_no_metadata (p : Path) (url : string) t r :
  Runs (local_repo_status p url) t r ->
  In (EvIsDir (path_join p ".git") false) t ->
  r = Returned ("NOT PRESENT", "-", false) /\
  t = [EvIsDir (path_join p ".git") false].
Proof.
  intros H Hin. unfold local_repo_status in H. runs_inv; tests_to_facts; subst.
  1: now split.
  all: in_cases Hin.
Qed.

(** C5, as the specification states it, fails: the directory holds a
    [.gitmodules] file, yet the classifier answers false without looking. *)
Lemma submodule_check_skipped_when_not_present :
  w_is_dir (world_of bare_directory) tt (path_join proj ".git") = false /\
  w_is_file (world_of bare_directory) tt (path_join proj ".gitmodules") = true /\
  classify_in bare_directory = Returned ("NOT PRESENT", "-", false) /\
  classify_trace_in bare_directory = [EvIsDir (path_join proj ".git") false].
Proof. repeat split. Qed.

Lemma not_present_when_no_metadata_witness :
  In (EvIsDir (path_join proj ".git") false) (classify_trace_in bare_directory) /\
  classify_in bare_directory = Returned ("NOT PRESENT", "-", false) /\
  classify_trace_in bare_directory = [EvIsDir (path_join proj ".git") false].
Proof.
  assert (Hin : In (EvIsDir (path_join proj ".git") false)
                   (classify_trace_in bare_directory)) by (left; reflexivity).
  split; [exact Hin|].
  exact (not_present_when_no_metadata proj proj_url _ _
           (interp_Runs (world_of bare_directory) _ tt) Hin).
Defined.




(** C4, as the code has it.  When the unmerged-path query succeeds with a
    listing that is not empty, the classifier answers CONFLICT, whatever
    the working tree and the two counts are; and that query is made
    exactly when the metadata directory is present and the status, branch,
    remote-refresh and ahead/behind queries have all succeeded. *)
Theorem unmerged_listing_gives_conflict (p : Path) (url : string) t st br sub :
  Runs (local_repo_status p url) t (Returned (st, br, sub)) ->
  (forall o, outcome_of git_ls_files t = Some o ->
             reports_unmerged o = true -> st = "CONFLICT") /\
  ((exists o, outcome_of git_ls_files t = Some o) <->
   In (EvIsDir (path_join p ".git") true) t /\
   exists o1 o2 o3 o4,
     outcome_of git_status t = Some o1 /\ exit_code o1 = 0 /\
     outcome_of git_branch t = Some o2 /\ exit_code o2 = 0 /\
     outcome_of git_remote_update t = Some o3 /\ exit_code o3 = 0 /\
     outcome_of git_rev_list t = Some o4 /\ exit_code o4 = 0).
Proof.
  intros H. unfold local_repo_status in H.
  runs_inv; tests_to_facts; subst.
  all: split; [ intros oq Ho Hr; unfold reports_unmerged in Hr; eval_outcomes;
                tests_to_facts; try reflexivity; try congruence | ].
  all: split;
    [ intros [oq Ho]; eval_outcomes;
      (split; [ cbn [In]; auto
              | do 4 eexists; repeat split; first [reflexivity | eassumption] ])
    | intros [Hin (o1' & o2' & o3' & o4' & Hq1 & Eq1 & Hq2 & Eq2 & Hq3 & Eq3 & Hq4 & Eq4)];
      eval_outcomes; try congruence; try (in_cases Hin); try (eexists; reflexivity) ].
Qed.

(** C4, as the specification states it, fails: the metadata directory is
    there, the status, branch and remote-refresh queries succeed, the
    unmerged-path listing is not empty, and the classifier answers
    MODIFIED, because the ahead/behind count failed first. *)
Lemma unmerged_listing_without_upstream_is_modified :
  let env := world_of conflict_without_upstream in
  let cwd := Some (str_path proj) in
  w_is_dir env tt (path_join proj ".git") = true /\
  exit_code (fst (w_run env tt git_status cwd default_timeout)) = 0 /\
  exit_code (fst (w_run env tt git_branch cwd default_timeout)) = 0 /\
  exit_code (fst (w_run env tt git_remote_update cwd default_timeout)) = 0 /\
  reports_unmerged (fst (w_run env tt git_ls_files cwd default_timeout)) = true /\
  classify_in conflict_without_upstream = Returned ("MODIFIED", "topic", false) /\
  classify_in conflict_without_upstream <> Returned ("CONFLICT", "topic", false).
Proof. repeat split. discriminate. Qed.

Lemma unmerged_listing_gives_conflict_witness :
  Runs (local_repo_status proj proj_url)
       (classify_trace_in conflict_and_divergence)
       (Returned ("CONFLICT", "main", false)) /\
  (forall o, outcome_of git_ls_files (classify_trace_in conflict_and_divergence) = Some o ->
             reports_unmerged o = true -> "CONFLICT" = "CONFLICT") /\
  ((exists o, outcome_of git_ls_files (classify_trace_in conflict_and_divergence) = Some o) <->
   In (EvIsDir (path_join proj ".git") true) (classify_trace_in conflict_and_divergence) /\
   exists o1 o2 o3 o4,
     outcome_of git_status (classify_trace_in conflict_and_divergence) = Some o1 /\
     exit_code o1 = 0 /\
     outcome_of git_branch (classify_trace_in conflict_and_divergence) = Some o2 /\
     exit_code o2 = 0 /\
     outcome_of git_remote_update (classify_trace_in conflict_and_divergence) = Some o3 /\
     exit_code o3 = 0 /\
     outcome_of git_rev_list (classify_trace_in conflict_and_divergence) = Some o4 /\
     exit_code o4 = 0).
Proof.
  assert (Hrun : Runs (local_repo_status proj proj_url)
                   (classify_trace_in conflict_and_divergence)
                   (Returned ("CONFLICT", "main", false)))
    by exact (interp_Runs (world_of conflict_and_divergence) _ tt).
  split; [exact Hrun|].
  exact (unmerged_listing_gives_conflict proj proj_url _ _ _ _ Hrun).
Defined.

(** C6.  The code departs from the claim here.  The clone is clean, has
    no commit of its own and lacks three commits of its upstream, the last
    of them forty days old: git prints the count [0<TAB>3], the number of
    commits on [HEAD] only coming first.  The classifier reads the first
    number as [behind] and the second as [ahead]: it answers MODIFIED, and
    never asks for the timestamp, where the claim has OBSOLETE.  The other
    way round, a clean clone with three commits of its own that lacks
    nothing is answered OUT OF DATE.  And where the split is made, the
    offset of the timestamp is dropped: a commit made thirty days ago and
    written with the offset [+08:00] counts for twenty-nine days. *)
Theorem behind_only_is_modified :
  on_rev_list behind_only = ok (rev_list_counts 0 3) /\
  reports_dirty (on_status behind_only) = false /\
  reports_unmerged (on_ls_files behind_only) = false /\
  parse_ahead_behind (captured_out (on_rev_list behind_only)) = (0, 3) /\
  classify_in behind_only = Returned ("MODIFIED", "main", false) /\
  outcome_of git_log (classify_trace_in behind_only) = None /\
  on_rev_list local_commits_only = ok (rev_list_counts 3 0) /\
  classify_in local_commits_only = Returned ("OUT OF DATE", "main", false) /\
  days_between (day 30)
    (replace_tzinfo_None
       (mk_datetime (8 * 3600 * 1000000) (Some (8 * 3600 * 1000000)))) = 29.
Proof. repeat split. Qed.

(** C7, as the code has it.  A dirty working tree and a successful
    ahead/behind query with one of the counts positive: the answer is
    DESYNCHRONIZED or CONFLICT, never MODIFIED nor OUT OF DATE, and it is
    DESYNCHRONIZED whenever the unmerged-path query reports nothing. *)
Theorem dirty_with_divergence (p : Path) (url : string) t st br sub o1 o4 behind ahead :
  Runs (local_repo_status p url) t (Returned (st, br, sub)) ->
  outcome_of git_status t = Some o1 -> reports_dirty o1 = true ->
  outcome_of git_rev_list t = Some o4 -> exit_code o4 = 0 ->
  parse_ahead_behind (captured_out o4) = (behind, ahead) ->
  behind > 0 \/ ahead > 0 ->
  (st = "DESYNCHRONIZED" \/ st = "CONFLICT") /\
  st <> "MODIFIED" /\ st <> "OUT OF DATE" /\
  (forall o5, outcome_of git_ls_files t = Some o5 ->
              reports_unmerged o5 = false -> st = "DESYNCHRONIZED").
Proof.
  intros Hrun Hst Hdirty Hrl Erl Hp Hdiv.
  unfold local_repo_status in Hrun. unfold reports_dirty in Hdirty.
  runs_inv; eval_outcomes; same_counts; tests_to_facts;
    try congruence; try lia.
  all: repeat split; auto; try discriminate.
  all: intros oq Hoq Hu; unfold reports_unmerged in Hu; eval_outcomes;
    tests_to_facts; congruence.
Qed.

(** C7, as the specification states it, fails: the working tree is dirty,
    both counts are positive, and the classifier answers CONFLICT because
    unmerged paths are listed. *)
Lemma dirty_divergence_with_unmerged_is_conflict :
  reports_dirty (on_status conflict_and_divergence) = true /\
  exit_code (on_rev_list conflict_and_divergence) = 0 /\
  parse_ahead_behind (captured_out (on_rev_list conflict_and_divergence)) = (1, 1) /\
  classify_in conflict_and_divergence = Returned ("CONFLICT", "main", false) /\
  classify_in conflict_and_divergence <> Returned ("DESYNCHRONIZED", "main", false).
Proof. repeat split. discriminate. Qed.

Lemma dirty_with_divergence_witness :
  Runs (local_repo_status proj proj_url) (classify_trace_in dirty_and_divergence)
       (Returned ("DESYNCHRONIZED", "main", false)) /\
  reports_dirty (on_status dirty_and_divergence) = true /\
  parse_ahead_behind (captured_out (on_rev_list dirty_and_divergence)) = (1, 1) /\
  ("DESYNCHRONIZED" = "DESYNCHRONIZED" \/ "DESYNCHRONIZED" = "CONFLICT") /\
  "DESYNCHRONIZED" <> "MODIFIED" /\ "DESYNCHRONIZED" <> "OUT OF DATE" /\
  (forall o5, outcome_of git_ls_files (classify_trace_in dirty_and_divergence) = Some o5 ->
              reports_unmerged o5 = false -> "DESYNCHRONIZED" = "DESYNCHRONIZED").
Proof.
  assert (Hrun : Runs (local_repo_status proj proj_url)
                   (classify_trace_in dirty_and_divergence)
                   (Returned ("DESYNCHRONIZED", "main", false)))
    by exact (interp_Runs (world_of dirty_and_divergence) _ tt).
  split; [exact Hrun|]. split; [reflexivity|]. split; [reflexivity|].
  apply (dirty_with_divergence proj proj_url _ _ _ _
           (on_status dirty_and_divergence) (on_rev_list dirty_and_divergence)
           1 1 Hrun); try reflexivity.
  left. reflexivity.
Defined.

(** ** Loops and confirmations *)

(** A run of a loop whose body always returns is one run of the body per
    element, in order. *)
Lemma for_each_inv {R : Type} (body : R -> Prog unit) (l : list R) :
  (forall x t r, Runs (body x) t r -> r = Returned tt) ->
  forall t r, Runs (for_each l body) t r ->
    r = Returned tt /\
    exists ts, t = List.concat ts /\
               Forall2 (fun x tx => Runs (body x) tx (Returned tt)) l ts.
Proof.
  intros Hret. induction l as [|x l IH]; intros t r H; cbn [for_each] in H.
  - inv H. split; [reflexivity|]. exists []. split; [reflexivity | constructor].
  - apply Runs_bind_inv in H.
    destruct H as [(e & He & ->)|(a & t1 & t2 & H1 & H2 & ->)].
    + apply Hret in He. discriminate.
    + apply IH in H2. destruct H2 as [-> (ts & -> & HF)].
      split; [reflexivity|]. exists (t1 :: ts). split; [reflexivity|].
      constructor; [|assumption]. now destruct a.
Qed.

Lemma update_body_inputs (ua : bool) (x : RepoRecord) t r :
  Runs (update_body ua x) t r -> r = Returned tt /\ inputs t = [].
Proof.
  intros H. unfold update_body, ensure_submodules in H. runs_inv; now split.
Qed.

Lemma clone_body_inputs (ca : bool) (x : RepoRecord) t r :
  Runs (clone_body ca x) t r -> r = Returned tt /\ inputs t = [].
Proof.
  intros H. unfold clone_body, ensure_submodules in H. runs_inv; now split.
Qed.

Lemma fetch_body_inputs (fa : bool) (x : RepoRecord) t r :
  Runs (fetch_body fa x) t r -> r = Returned tt /\ inputs t = [].
Proof.
  intros H. unfold fetch_body, ensure_submodules in H. runs_inv; now split.
Qed.

Lemma update_body_returns (ua : bool) (x : RepoRecord) t r :
  Runs (update_body ua x) t r -> r = Returned tt.
Proof. intros H. now apply update_body_inputs in H. Qed.

Lemma clone_body_returns (ca : bool) (x : RepoRecord) t r :
  Runs (clone_body ca x) t r -> r = Returned tt.
Proof. intros H. now apply clone_body_inputs in H. Qed.

Lemma fetch_body_returns (fa : bool) (x : RepoRecord) t r :
  Runs (fetch_body fa x) t r -> r = Returned tt.
Proof. intros H. now apply fetch_body_inputs in H. Qed.

Lemma listing_only_prints (ws : bool) (g : list RepoRecord) t r :
  Runs (for_each g (fun x => console_print (listing_line ws x))) t r ->
  r = Returned tt /\ only_prints t.
Proof.
  revert t r. induction g as [|x g IH]; intros t r H; cbn [for_each] in H.
  - inv H. split; [reflexivity | constructor].
  - unfold console_print in H at 1. cbn [bind] in H. inv H.
    match goal with Hk : Runs _ _ _ |- _ => apply IH in Hk; destruct Hk as [-> HF] end.
    split; [reflexivity|].
    constructor; [eexists; reflexivity | assumption].
Qed.

Lemma confirm_inv (g : list RepoRecord) (header : string) (ws : bool)
    (prompt : string) t r :
  Runs (confirm g header ws prompt) t r ->
  (g = [] /\ t = [] /\ r = Returned false) \/
  (exists ps line,
     only_prints ps /\
     t = (ps ++ [EvInput (prompt ++ " [Y/n] ") line])%list /\
     r = match line with
         | Some l => Returned (yes_no_reply l true)
         | None => Crashed "EOFError"
         end).
Proof.
  intros H. destruct g as [|x g]; cbn [confirm] in H.
  - inv H. left. auto.
  - right. remember (x :: g) as grp eqn:Egrp.
    apply Runs_bind_inv in H.
    destruct H as [(e & He & ->)|(u0 & th & tk & Hh & Hk & ->)];
      [unfold console_print in He; runs_inv|].
    inv Hh. match goal with Hr : Runs (Ret tt) _ _ |- _ => inv Hr end.
    match goal with Hk : Runs _ _ _ |- _ => apply Runs_bind_inv in Hk;
      destruct Hk as [(e & He & ->)|(u & t1 & t2 & Hl & Hq & ->)] end.
    + apply listing_only_prints in He. destruct He. discriminate.
    + apply listing_only_prints in Hl. destruct Hl as [_ HF].
      unfold ask_yes_no in Hq. inv Hq.
      match goal with Hk : Runs (match ?a with _ => _ end) _ _ |- _ =>
        exists (EvPrint header :: t1), a; destruct a; inv Hk end.
      all: split; [constructor; [eexists; reflexivity | assumption] | ].
      all: split; reflexivity.
Qed.

Lemma inputs_app (t1 t2 : list Event) :
  inputs (t1 ++ t2) = (inputs t1 ++ inputs t2)%list.
Proof.
  induction t1 as [|e t1 IH]; [reflexivity|].
  destruct e; cbn [inputs app]; rewrite ?IH; reflexivity.
Qed.

Lemma in_inputs (q : string) (a : option string) (t : list Event) :
  In (EvInput q a) t <-> In (q, a) (inputs t).
Proof.
  induction t as [|e t IH]; [reflexivity|].
  destruct e; cbn [inputs In]; rewrite IH;
    (split; intros [H|H]; auto; try discriminate; inv H; auto) ||
    (split; [intros [H|H]; [discriminate|auto] | auto]).
Qed.

Lemma only_prints_inputs (t : list Event) : only_prints t -> inputs t = [].
Proof.
  induction 1 as [|e t [msg ->] _ IH]; [reflexivity | exact IH].
Qed.

Lemma commands_app (t1 t2 : list Event) :
  commands (t1 ++ t2) = (commands t1 ++ commands t2)%list.
Proof.
  induction t1 as [|e t1 IH]; [reflexivity|].
  destruct e; cbn [commands app]; rewrite ?IH; reflexivity.
Qed.

Lemma only_prints_commands (t : list Event) : only_prints t -> commands t = [].
Proof.
  induction 1 as [|e t [msg ->] _ IH]; [reflexivity | exact IH].
Qed.

Lemma loop_inputs {R : Type} (body : R -> Prog unit) (l : list R) :
  (forall x t r, Runs (body x) t r -> r = Returned tt /\ inputs t = []) ->
  forall t r, Runs (for_each l body) t r -> r = Returned tt /\ inputs t = [].
Proof.
  intros Hb. induction l as [|x l IH]; intros t r H; cbn [for_each] in H.
  - inv H. auto.
  - apply Runs_bind_inv in H.
    destruct H as [(e & He & ->)|(a & t1 & t2 & H1 & H2 & ->)].
    + apply Hb in He. destruct He. discriminate.
    + apply Hb in H1. apply IH in H2. destruct H1 as [_ E1], H2 as [-> E2].
      now rewrite inputs_app, E1, E2.
Qed.

(** What a confirmation leaves in the trace: no command, and at most the
    one answer that decides its result. *)
Lemma confirm_trace (g : list RepoRecord) (header : string) (ws : bool)
    (prompt : string) t r :
  Runs (confirm g header ws prompt) t r ->
  commands t = [] /\
  ((inputs t = [] /\ r = Returned false) \/
   (exists line, inputs t = [(prompt ++ " [Y/n] ", line)] /\
      r = match line with
          | Some l => Returned (yes_no_reply l true)
          | None => Crashed "EOFError"
          end)).
Proof.
  intros H. apply confirm_inv in H.
  destruct H as [(-> & -> & ->)|(ps & line & Hps & -> & ->)].
  - split; [reflexivity|]. left. auto.
  - split.
    + rewrite commands_app, (only_prints_commands _ Hps). reflexivity.
    + right. exists line. split; [|reflexivity].
      rewrite inputs_app, (only_prints_inputs _ Hps). reflexivity.
Qed.

(** ** The groups *)

Lemma grouped_get_setdefault (key : string) (item : RepoRecord) (g : Grouped)
    (st : string) :
  grouped_get (setdefault_append key item g) st =
  if String.eqb key st then (grouped_get g st ++ [item])%list
  else grouped_get g st.
Proof.
  induction g as [|[k l] g IH]; cbn [setdefault_append grouped_get].
  - destruct (String.eqb_spec key st); reflexivity.
  - destruct (String.eqb_spec k key) as [->|Hk]; cbn [grouped_get].
    + destruct (String.eqb_spec key st); reflexivity.
    + rewrite IH. destruct (String.eqb_spec k st) as [->|Hs]; [|reflexivity].
      destruct (String.eqb_spec key st); [congruence | reflexivity].
Qed.

Lemma grouped_get_fold (l : list RepoRecord) (g : Grouped) (st : string) :
  grouped_get
    (fold_left (fun g item => setdefault_append (status item) item g) l g) st =
  (grouped_get g st ++ filter (fun r => String.eqb (status r) st) l)%list.
Proof.
  revert g. induction l as [|x l IH]; intro g; cbn [fold_left filter].
  - now rewrite app_nil_r.
  - rewrite IH, grouped_get_setdefault.
    destruct (String.eqb (status x) st); [|reflexivity].
    now rewrite <- app_assoc.
Qed.

(** A group holds the records of its status, in the order of the list. *)
Lemma grouped_get_spec (checked : list RepoRecord) (st : string) :
  grouped_get (get_grouped_repos checked) st =
  filter (fun r => String.eqb (status r) st) checked.
Proof. unfold get_grouped_repos. now rewrite grouped_get_fold. Qed.

Lemma in_members (checked : list RepoRecord) (sts : list string) (r : RepoRecord) :
  In r (members (get_grouped_repos checked) sts) <->
  In r checked /\ In (status r) sts.
Proof.
  unfold members. rewrite in_flat_map. split.
  - intros (st & Hst & Hin). rewrite grouped_get_spec in Hin.
    apply filter_In in Hin. destruct Hin as [Hin Heq].
    apply String.eqb_eq in Heq. subst. auto.
  - intros [Hin Hst]. exists (status r). split; [assumption|].
    rewrite grouped_get_spec. apply filter_In. split; [assumption|].
    apply String.eqb_refl.
Qed.

(** ** The shape of a run of the orchestrator *)

(** A run is three confirmations, which run nothing, then the three loops;
    a yes to the catch-up prompt is the [update_all] of the first loop.  A
    run that crashes does so in a confirmation, before any command. *)
Lemma do_updates_and_clones_inv (checked : list RepoRecord) t res :
  Runs (do_updates_and_clones checked) t res ->
  (exists e, res = Crashed e /\ commands t = []) \/
  (res = Returned tt /\
   exists ua ca fa tp tA tB tC,
     t = (tp ++ tA ++ tB ++ tC)%list /\
     commands tp = [] /\
     (update_confirmed t -> ua = true) /\
     Runs (for_each (need_update checked) (update_body ua)) tA (Returned tt) /\
     Runs (for_each (need_clone checked) (clone_body ca)) tB (Returned tt) /\
     Runs (for_each (need_fetch checked) (fetch_body fa)) tC (Returned tt)).
Proof.
  intros H. unfold do_updates_and_clones in H.
  apply Runs_bind_inv in H.
  destruct H as [(e & H1 & ->)|(ua & t1 & u1 & H1 & H & ->)];
    apply confirm_trace in H1; destruct H1 as [C1 I1];
    [left; eauto|].
  apply Runs_bind_inv in H.
  destruct H as [(e & H2 & ->)|(ca & t2 & u2 & H2 & H & ->)];
    apply confirm_trace in H2; destruct H2 as [C2 I2];
    [left; exists e; now rewrite commands_app, C1, C2|].
  apply Runs_bind_inv in H.
  destruct H as [(e & H3 & ->)|(fa & t3 & u3 & H3 & H & ->)];
    apply confirm_trace in H3; destruct H3 as [C3 I3];
    [left; exists e; now rewrite !commands_app, C1, C2, C3|].
  apply Runs_bind_inv in H.
  destruct H as [(e & HA & ->)|([] & tA & u4 & HA & H & ->)];
    pose proof (loop_inputs _ _ (update_body_inputs ua) _ _ HA) as [RA IA];
    [discriminate|].
  apply Runs_bind_inv in H.
  destruct H as [(e & HB & ->)|([] & tB & tC & HB & HC & ->)];
    pose proof (loop_inputs _ _ (clone_body_inputs ca) _ _ HB) as [RB IB];
    [discriminate|].
  pose proof (loop_inputs _ _ (fetch_body_inputs fa) _ _ HC) as [-> IC].
  right. split; [reflexivity|].
  exists ua, ca, fa, (t1 ++ t2 ++ t3)%list, tA, tB, tC.
  split; [now rewrite <- !app_assoc|].
  split; [now rewrite !commands_app, C1, C2, C3|].
  split; [|auto].
  intros (line & Hin & Hyes). apply in_inputs in Hin.
  rewrite !inputs_app, IA, IB, IC, !app_nil_r in Hin.
  assert (Hq2 : forall a b : option string,
             (update_prompt ++ " [Y/n] ", a) <> (clone_prompt ++ " [Y/n] ", b))
    by (intros a b; discriminate).
  assert (Hq3 : forall a b : option string,
             (update_prompt ++ " [Y/n] ", a) <> (fetch_prompt ++ " [Y/n] ", b))
    by (intros a b; discriminate).
  destruct I1 as [[E1 _]|(l1 & E1 & R1)], I2 as [[E2 _]|(l2 & E2 & R2)],
           I3 as [[E3 _]|(l3 & E3 & R3)]; rewrite E1, E2, E3 in Hin;
    cbn [app In] in Hin;
    repeat match type of Hin with
           | _ \/ _ => destruct Hin as [Hin|Hin]
           end; try (exfalso; exact Hin);
    try (symmetry in Hin; apply Hq2 in Hin; contradiction);
    try (symmetry in Hin; apply Hq3 in Hin; contradiction).
  all: inv Hin; inv R1; assumption.
Qed.

Lemma Forall2_segment {A B : Type} (P : A -> list B -> Prop) (l : list A)
    (ts : list (list B)) (x : A) :
  Forall2 P l ts -> In x l ->
  exists pre seg post, List.concat ts = (pre ++ seg ++ post)%list /\ P x seg.
Proof.
  induction 1 as [|y ty l ts Hy _ IH]; intros Hin; [contradiction|].
  destruct Hin as [->|Hin].
  - exists [], ty, (List.concat ts). split; [reflexivity | assumption].
  - destruct (IH Hin) as (pre & seg & post & E & HP).
    exists (ty ++ pre)%list, seg, post. split; [|assumption].
    cbn [List.concat]. now rewrite E, <- app_assoc.
Qed.

(** After a yes to the catch-up prompt, the trace holds a run of the
    catch-up body for every out-of-date or obsolete record. *)
Lemma catch_up_member (checked : list RepoRecord) t (r : RepoRecord) :
  Runs (do_updates_and_clones checked) t (Returned tt) ->
  update_confirmed t ->
  In r checked -> In (status r) out_of_date_statuses ->
  exists pre seg post,
    t = (pre ++ seg ++ post)%list /\
    Runs (update_body true r) seg (Returned tt).
Proof.
  intros H Hc Hin Hst.
  apply do_updates_and_clones_inv in H.
  destruct H as [(e & He & _)|[_ H]]; [discriminate|].
  destruct H as (ua & ca & fa & tp & tA & tB & tC & -> & _ & Hua & HA & _ & _).
  rewrite (Hua Hc) in HA.
  apply for_each_inv in HA; [|apply update_body_returns].
  destruct HA as [_ (ts & -> & HF)].
  assert (Hr : In r (need_update checked)) by (apply in_members; auto).
  destruct (Forall2_segment _ _ _ _ HF Hr) as (pre & seg & post & E & Hseg).
  exists (tp ++ pre)%list, seg, (post ++ tB ++ tC)%list.
  split; [|assumption]. rewrite E, <- !app_assoc. reflexivity.
Qed.

(** The shape of one catch-up: the fetch, and after a successful fetch the
    two re-checks, then either the pull or the warnings, then the submodule
    updater. *)
Lemma update_body_shape (r : RepoRecord) seg :
  Runs (update_body true r) seg (Returned tt) ->
  let cwd := Some (str_path (path r)) in
  exists o rest,
    seg = EvPrint (updating r) :: EvRun git_fetch cwd default_timeout o :: rest /\
    (exit_code o = 0 ->
     exists o1 o2 rest',
       rest = EvRun git_status cwd default_timeout o1
              :: EvRun git_ls_files cwd default_timeout o2 :: rest' /\
       (reports_dirty o1 = false -> lists_unmerged o2 = false ->
        exists o3 msg ts,
          rest' = EvRun git_pull cwd default_timeout o3 :: EvPrint msg :: ts /\
          Runs (ensure_submodules (path r)) ts (Returned tt)) /\
       (reports_dirty o1 = true \/ lists_unmerged o2 = true ->
        exists ts,
          rest' = (skip_warnings r (reports_dirty o1) (lists_unmerged o2) ++ ts)%list /\
          Runs (ensure_submodules (path r)) ts (Returned tt))).
Proof.
  intros H cwd. unfold update_body in H. cbn [negb] in H. cbv iota in H.
  remember (ensure_submodules (path r)) as es eqn:Ees.
  runs_inv; tests_to_facts.
  all: do 2 eexists; split; [reflexivity|]; intros Hc; try congruence.
  all: do 3 eexists; split; [reflexivity|]; unfold reports_dirty, lists_unmerged.
  all: split; [intros Hd Hu | intros Hdu].
  all: try congruence.
  all: try (destruct Hdu; congruence).
  all: try (do 3 eexists; split; [reflexivity | assumption]).
  all: eexists; split; [|eassumption]; unfold skip_warnings;
    repeat match goal with
           | Hb : truthy ?x = _ |- context [truthy ?x] => rewrite Hb
           end; reflexivity.
Qed.

Lemma ensure_submodules_commands (q : Path) t r :
  Runs (ensure_submodules q) t r ->
  r = Returned tt /\
  (forall cmd, In cmd (commands t) ->
               cmd = git_submodule_init \/ cmd = git_submodule_update) /\
  updater_commands (commands_in (str_path q) t) /\
  (forall dir, dir <> str_path q -> commands_in dir t = []).
Proof.
  intros H. unfold ensure_submodules in H. runs_inv; tests_to_facts.
  all: split; [reflexivity|]; split; [|split].
  all: lazymatch goal with
       | |- forall cmd, In _ _ -> _ =>
           intros cmd Hin; cbn [commands In] in Hin; intuition auto
       | |- forall dir, _ <> _ -> _ =>
           intros dir Hd; cbn [commands_in targets];
           apply not_eq_sym in Hd; apply String.eqb_neq in Hd;
           rewrite ?Hd; reflexivity
       | |- updater_commands _ =>
           unfold updater_commands; cbn [commands_in targets];
           rewrite ?String.eqb_refl;
           repeat match goal with
                  | Hz : exit_code ?o = 0 |- context [exit_code ?o] => rewrite Hz
                  end;
           first [ left; reflexivity
                 | right; left; eexists; split; [eassumption | reflexivity]
                 | right; right; eexists; reflexivity ]
       end.
Qed.

(** ** The catch-up phase *)

(** C8.  The code departs from the claim here.  The record is out of
    date, the operator says yes, the fetch succeeds and both re-checks
    come back empty, so the pull is run; it fails, and what it wrote names
    a directory whose path reads as a closing tag.  The message of the
    failure cannot be printed: [MarkupError] ends the run right after the
    pull, and the submodule updater, which had a [.gitmodules] file to work
    on and does its work when the message is printed, is never called. *)
Theorem pull_failure_message_ends_the_run :
  let cut := with_markup_errors (do_updates_and_clones [locked_record]) in
  let cwd := Some (str_path locked_path) in
  In (status locked_record) out_of_date_statuses /\
  w_is_file index_locked tt (path_join locked_path ".gitmodules") = true /\
  markup_raises
    ("[red]git pull failed for " ++ name locked_record ++ "[/red]: "
     ++ captured_err (fst (w_run index_locked tt git_pull cwd default_timeout)))
  = true /\
  result_in index_locked cut tt = Crashed "MarkupError" /\
  (exists pre o1 o2 o3,
     trace_in index_locked cut tt
     = (pre ++ [EvRun git_fetch cwd default_timeout (ok "");
                EvRun git_status cwd default_timeout o1;
                EvRun git_ls_files cwd default_timeout o2;
                EvRun git_pull cwd default_timeout o3])%list /\
     reports_dirty o1 = false /\ lists_unmerged o2 = false /\
     exit_code o3 <> 0 /\ commands pre = []) /\
  (forall b, ~ In (EvIsFile (path_join locked_path ".gitmodules") b)
                  (trace_in index_locked cut tt)) /\
  commands (trace_in index_locked (do_updates_and_clones [locked_record]) tt)
  = [git_fetch; git_status; git_ls_files; git_pull;
     git_submodule_init; git_submodule_update].
Proof.
  cbv zeta. split; [now left|]. split; [reflexivity|]. split; [reflexivity|].
  split; [reflexivity|]. split; [|split].
  - exists (firstn 4 (trace_in index_locked
                        (with_markup_errors (do_updates_and_clones [locked_record])) tt)).
    do 3 eexists. split; [reflexivity|].
    repeat split. discriminate.
  - intros b Hin. vm_compute in Hin.
    repeat match type of Hin with
           | _ \/ _ => destruct Hin as [Hin|Hin]
           end; try contradiction; discriminate Hin.
  - reflexivity.
Qed.

(** C10.  The two re-checks of the catch-up phase decide on the captured
    output alone: the pull follows exactly when both outputs strip to the
    empty string, whatever the exit codes; a query that fails to execute
    counts as clean, and when both fail the pull is still run. *)
Theorem unreadable_recheck_still_pulls (checked : list RepoRecord) t
    (r : RepoRecord) :
  Runs (do_updates_and_clones checked) t (Returned tt) ->
  update_confirmed t ->
  In r checked -> In (status r) out_of_date_statuses ->
  let cwd := Some (str_path (path r)) in
  exists pre o rest,
    t = (pre ++ EvPrint (updating r)
             :: EvRun git_fetch cwd default_timeout o :: rest)%list /\
    (exit_code o = 0 ->
     exists o1 o2 rest',
       rest = EvRun git_status cwd default_timeout o1
              :: EvRun git_ls_files cwd default_timeout o2 :: rest' /\
       let pulled :=
         exists o3 rest'', rest' = EvRun git_pull cwd default_timeout o3 :: rest'' in
       (pulled <->
        strip (captured_out o1) = "" /\ strip (captured_out o2) = "") /\
       (forall e, o1 = Failed e -> (pulled <-> strip (captured_out o2) = "")) /\
       (forall e, o2 = Failed e -> (pulled <-> strip (captured_out o1) = "")) /\
       (forall e1 e2, o1 = Failed e1 -> o2 = Failed e2 -> pulled)).
Proof.
  intros H Hc Hin Hst cwd.
  destruct (catch_up_member _ _ _ H Hc Hin Hst) as (pre & seg & post & -> & Hseg).
  apply update_body_shape in Hseg.
  destruct Hseg as (o & rest & -> & Hok).
  exists pre, o, (rest ++ post)%list. split; [reflexivity|].
  intros Ho. destruct (Hok Ho) as (o1 & o2 & rest' & -> & Hclean & Hskip).
  exists o1, o2, (rest' ++ post)%list. split; [reflexivity|].
  assert (Hiff : (exists o3 rest'',
                    (rest' ++ post)%list = EvRun git_pull cwd default_timeout o3 :: rest'')
                 <-> strip (captured_out o1) = "" /\ strip (captured_out o2) = "").
  { unfold reports_dirty, lists_unmerged in Hclean, Hskip.
    rewrite <- !truthy_false. split.
    - intros (o3 & rest'' & E).
      destruct (truthy (strip (captured_out o1))) eqn:E1;
        destruct (truthy (strip (captured_out o2))) eqn:E2; auto;
        (destruct Hskip as (ts & -> & _); [auto|];
         unfold skip_warnings in E; cbn in E; discriminate).
    - intros [E1 E2]. destruct (Hclean E1 E2) as (o3 & msg & ts & -> & _).
      do 2 eexists. reflexivity. }
  cbv zeta. split; [exact Hiff|]. split; [|split].
  - intros e ->. rewrite Hiff. cbn. tauto.
  - intros e ->. rewrite Hiff. cbn. tauto.
  - intros e1 e2 -> ->. apply Hiff. split; reflexivity.
Qed.

Lemma unreadable_recheck_still_pulls_witness :
  Runs (do_updates_and_clones [proj_record "OUT OF DATE"])
       (reconcile_trace_in rechecks_fail "OUT OF DATE") (Returned tt) /\
  update_confirmed (reconcile_trace_in rechecks_fail "OUT OF DATE") /\
  exists pre o rest,
    reconcile_trace_in rechecks_fail "OUT OF DATE" =
      (pre ++ EvPrint (updating (proj_record "OUT OF DATE"))
           :: EvRun git_fetch (Some (str_path proj)) default_timeout o :: rest)%list /\
    (exit_code o = 0 ->
     exists o1 o2 rest',
       rest = EvRun git_status (Some (str_path proj)) default_timeout o1
              :: EvRun git_ls_files (Some (str_path proj)) default_timeout o2 :: rest' /\
       let pulled :=
         exists o3 rest'',
           rest' = EvRun git_pull (Some (str_path proj)) default_timeout o3 :: rest'' in
       (pulled <->
        strip (captured_out o1) = "" /\ strip (captured_out o2) = "") /\
       (forall e, o1 = Failed e -> (pulled <-> strip (captured_out o2) = "")) /\
       (forall e, o2 = Failed e -> (pulled <-> strip (captured_out o1) = "")) /\
       (forall e1 e2, o1 = Failed e1 -> o2 = Failed e2 -> pulled)).
Proof.
  assert (Hrun : Runs (do_updates_and_clones [proj_record "OUT OF DATE"])
                   (reconcile_trace_in rechecks_fail "OUT OF DATE") (Returned tt))
    by exact (interp_Runs (world_of rechecks_fail) _ tt).
  assert (Hyes : update_confirmed (reconcile_trace_in rechecks_fail "OUT OF DATE")).
  { exists "y". split; [|reflexivity]. right. right. left. reflexivity. }
  split; [exact Hrun|]. split; [exact Hyes|].
  apply (unreadable_recheck_still_pulls _ _ (proj_record "OUT OF DATE") Hrun Hyes).
  - left. reflexivity.
  - left. reflexivity.
Defined.

(** ** Commands by directory *)

Lemma commands_in_app (dir : string) (t1 t2 : list Event) :
  commands_in dir (t1 ++ t2) = (commands_in dir t1 ++ commands_in dir t2)%list.
Proof.
  induction t1 as [|e t1 IH]; [reflexivity|].
  destruct e; cbn [commands_in app]; rewrite ?IH; try reflexivity.
  destruct (targets dir cmd cwd); reflexivity.
Qed.

Lemma commands_in_none (dir : string) (t : list Event) :
  commands t = [] -> commands_in dir t = [].
Proof.
  induction t as [|e t IH]; [reflexivity|].
  destruct e; cbn [commands commands_in]; auto; discriminate.
Qed.

Lemma parent_then_name_id (p : Path) : parent_then_name p = p.
Proof.
  destruct p as [|c p]; [reflexivity|].
  unfold parent_then_name, path_join, path_name.
  symmetry. apply app_removelast_last. discriminate.
Qed.

Lemma update_body_elsewhere (ua : bool) (x : RepoRecord) (dir : string) t r :
  Runs (update_body ua x) t r -> dir <> str_path (path x) ->
  commands_in dir t = [].
Proof.
  intros H Hd. apply not_eq_sym in Hd. apply String.eqb_neq in Hd.
  unfold update_body, ensure_submodules in H.
  runs_inv; cbn [commands_in targets]; rewrite ?Hd; reflexivity.
Qed.

Lemma clone_body_elsewhere (ca : bool) (x : RepoRecord) (dir : string) t r :
  Runs (clone_body ca x) t r -> dir <> str_path (path x) ->
  commands_in dir t = [].
Proof.
  intros H Hd. apply not_eq_sym in Hd. apply String.eqb_neq in Hd.
  unfold clone_body, ensure_submodules in H. rewrite parent_then_name_id in H.
  runs_inv; cbn [commands_in targets git_clone]; rewrite ?Hd, ?andb_false_r;
    reflexivity.
Qed.

Lemma fetch_body_commands (fa : bool) (x : RepoRecord) (dir : string) t r :
  Runs (fetch_body fa x) t r ->
  (dir <> str_path (path x) -> commands_in dir t = []) /\
  refresh_commands (commands_in (str_path (path x)) t).
Proof.
  intros H. unfold fetch_body in H.
  pose proof (ensure_submodules_commands (path x)) as Hes.
  set (es := ensure_submodules (path x)) in *. clearbody es.
  runs_inv; tests_to_facts.
  - split; [reflexivity | left; reflexivity].
  - split.
    + intros Hd. apply not_eq_sym in Hd. apply String.eqb_neq in Hd.
      cbn [commands_in targets]. now rewrite Hd.
    + right. left. eexists. split; [eassumption|].
      cbn [commands_in targets]. now rewrite String.eqb_refl.
  - match goal with Hb : Runs (bind _ _) _ _ |- _ =>
      apply Runs_bind_inv in Hb;
      destruct Hb as [(e & He & ->)|(u & t1 & t2 & H1 & H2 & ->)] end.
    + apply Hes in He. destruct He. discriminate.
    + runs_inv. apply Hes in H1.
      destruct H1 as (_ & _ & Hup & Hel). split.
      * intros Hd. pose proof (Hel _ Hd) as E.
        apply not_eq_sym in Hd. apply String.eqb_neq in Hd.
        cbn [commands_in targets]. rewrite Hd, commands_in_app, E. reflexivity.
      * right. right. eexists. split; [|exact Hup].
        cbn [commands_in targets].
        rewrite String.eqb_refl, commands_in_app.
        match goal with Hz : exit_code _ = 0 |- _ => rewrite Hz end.
        cbn [commands_in app]. now rewrite app_nil_r.
Qed.

(** A loop whose bodies leave [dir] alone leaves it alone. *)
Lemma loop_elsewhere {R : Type} (body : R -> Prog unit) (dir : string)
    (l : list R) :
  (forall x t r, In x l -> Runs (body x) t r ->
                 r = Returned tt /\ commands_in dir t = []) ->
  forall t r, Runs (for_each l body) t r -> commands_in dir t = [].
Proof.
  induction l as [|x l IH]; intros Hb t r H; cbn [for_each] in H.
  - inv H. reflexivity.
  - apply Runs_bind_inv in H.
    destruct H as [(e & He & ->)|(a & t1 & t2 & H1 & H2 & ->)].
    + apply Hb in He; [|now left]. destruct He. discriminate.
    + apply Hb in H1; [|now left]. destruct H1 as [_ E1].
      rewrite commands_in_app, E1. cbn [app].
      apply IH with (r := r); [|assumption].
      intros y ty ry Hy. apply Hb. now right.
Qed.

(** A loop over elements with distinct directories works on [dir] in at
    most one of its bodies. *)
Lemma loop_one_place {R : Type} (f : R -> string) (body : R -> Prog unit)
    (dir : string) (shape : list (list string * Z) -> Prop) (l : list R) :
  (forall x t r, Runs (body x) t r ->
     r = Returned tt /\
     (dir <> f x -> commands_in dir t = []) /\
     (dir = f x -> shape (commands_in dir t))) ->
  NoDup (map f l) ->
  forall t r, Runs (for_each l body) t r ->
    commands_in dir t = [] \/ shape (commands_in dir t).
Proof.
  intros Hb. induction l as [|x l IH]; intros Hnd t r H; cbn [for_each] in H.
  - inv H. left. reflexivity.
  - apply Runs_bind_inv in H.
    destruct H as [(e & He & ->)|(a & t1 & t2 & H1 & H2 & ->)].
    + apply Hb in He. destruct He. discriminate.
    + apply Hb in H1. destruct H1 as (_ & Hne & Heq).
      cbn [map] in Hnd. inversion Hnd as [|? ? Hnotin Hnd']; subst.
      rewrite commands_in_app.
      destruct (string_dec dir (f x)) as [E|E].
      * right. assert (E2 : commands_in dir t2 = []).
        { apply loop_elsewhere with (body := body) (l := l) (r := r); [|assumption].
          intros y ty ry Hy Hry. apply Hb in Hry. destruct Hry as (-> & Hney & _).
          split; [reflexivity|]. apply Hney. intros Ey. apply Hnotin.
          rewrite <- E, Ey. now apply in_map. }
        rewrite E2, app_nil_r. now apply Heq.
      * rewrite (Hne E). cbn [app]. now apply IH with (r := r).
Qed.

Lemma NoDup_map_injective {A B : Type} (f : A -> B) (l : list A) (x y : A) :
  NoDup (map f l) -> In x l -> In y l -> f x = f y -> x = y.
Proof.
  induction l as [|a l IH]; intros Hnd Hx Hy E; [contradiction|].
  cbn [map] in Hnd. inversion Hnd as [|? ? Hnotin Hnd']; subst.
  destruct Hx as [->|Hx], Hy as [->|Hy]; auto.
  - exfalso. apply Hnotin. rewrite E. now apply in_map.
  - exfalso. apply Hnotin. rewrite <- E. now apply in_map.
Qed.

Lemma members_cons (g : Grouped) (st : string) (sts : list string) :
  members g (st :: sts) = (grouped_get g st ++ members g sts)%list.
Proof. reflexivity. Qed.

Lemma NoDup_members (checked : list RepoRecord) (sts : list string) :
  NoDup sts -> NoDup checked ->
  NoDup (members (get_grouped_repos checked) sts).
Proof.
  intros Hs Hc. induction Hs as [|st sts Hnotin Hs IH].
  - constructor.
  - rewrite members_cons. apply NoDup_app.
    + rewrite grouped_get_spec. now apply NoDup_filter.
    + exact IH.
    + intros x Hx Hm. rewrite grouped_get_spec in Hx.
      apply filter_In in Hx. destruct Hx as [_ Hx]. apply String.eqb_eq in Hx.
      apply in_members in Hm. destruct Hm as [_ Hm]. congruence.
Qed.

Lemma NoDup_paths_members (checked : list RepoRecord) (sts : list string) :
  NoDup sts ->
  NoDup (map (fun x => str_path (path x)) checked) ->
  NoDup (map (fun x => str_path (path x)) (members (get_grouped_repos checked) sts)).
Proof.
  intros Hs Hc. apply NoDup_map_NoDup_ForallPairs.
  - intros x y Hx Hy E. apply in_members in Hx, Hy.
    apply (NoDup_map_injective _ _ _ _ Hc); tauto.
  - apply NoDup_members; [assumption|]. now apply NoDup_map_inv in Hc.
Qed.

Lemma refresh_commands_safe (l : list (list string * Z)) :
  refresh_commands l ->
  forall cmd c, In (cmd, c) l ->
    cmd = git_fetch \/ cmd = git_submodule_init \/ cmd = git_submodule_update.
Proof.
  intros [->|[(c0 & _ & ->)|(sub & -> & [->|[(c1 & _ & ->)|(c1 & ->)]])]]
         cmd c Hin; cbn [In] in Hin;
    repeat match type of Hin with
           | _ \/ _ => destruct Hin as [Hin|Hin]
           end; try contradiction; inv Hin; auto.
Qed.

(** ** The read-only refresh *)

(** C2.  A record classified MODIFIED, CONFLICT or DESYNCHRONIZED, in a
    list where every record has its own directory: whatever the answers
    and the outcomes, the commands run on its directory are none at all,
    or a failed fetch, or a successful fetch followed by what the submodule
    updater runs; none of them is a pull, a merge or a reset. *)
Theorem fetch_only_for_changed_repositories (checked : list RepoRecord) t res
    (r : RepoRecord) :
  Runs (do_updates_and_clones checked) t res ->
  NoDup (map (fun x => str_path (path x)) checked) ->
  In r checked -> In (status r) always_fetch_statuses ->
  let here := commands_in (str_path (path r)) t in
  refresh_commands here /\
  (forall cmd c, In (cmd, c) here ->
     ~ In (subcommand cmd) ["pull"; "merge"; "reset"]).
Proof.
  intros H Hnd Hin Hst here.
  assert (Hshape : refresh_commands here).
  { subst here. apply do_updates_and_clones_inv in H.
    destruct H as [(e & _ & Hc)|[_ H]].
    { left. now apply commands_in_none. }
    destruct H as (ua & ca & fa & tp & tA & tB & tC & -> & Hp & _ & HA & HB & HC).
    assert (Hother : forall x, In x checked -> status x <> status r ->
                               str_path (path r) <> str_path (path x)).
    { intros x Hx Hne E. apply Hne. f_equal.
      now apply (NoDup_map_injective _ _ _ _ Hnd Hx Hin). }
    assert (EA : commands_in (str_path (path r)) tA = []).
    { apply loop_elsewhere with (body := update_body ua)
        (l := need_update checked) (r := Returned tt); [|assumption].
      intros x tx rx Hx Hrx. split; [now apply update_body_returns in Hrx|].
      apply update_body_elsewhere with (ua := ua) (x := x) (r := rx); [assumption|].
      apply in_members in Hx. destruct Hx as [Hx Hsx]. apply Hother; [assumption|].
      intros E. rewrite E in Hsx. cbn [In out_of_date_statuses always_fetch_statuses] in Hsx, Hst.
      intuition congruence. }
    assert (EB : commands_in (str_path (path r)) tB = []).
    { apply loop_elsewhere with (body := clone_body ca)
        (l := need_clone checked) (r := Returned tt); [|assumption].
      intros x tx rx Hx Hrx. split; [now apply clone_body_returns in Hrx|].
      apply clone_body_elsewhere with (ca := ca) (x := x) (r := rx); [assumption|].
      unfold need_clone in Hx. rewrite grouped_get_spec in Hx.
      apply filter_In in Hx. destruct Hx as [Hx Hsx]. apply String.eqb_eq in Hsx.
      apply Hother; [assumption|].
      intros E. rewrite E in Hsx. cbn [In always_fetch_statuses] in Hst.
      unfold not_present_status in Hsx. intuition congruence. }
    rewrite !commands_in_app, (commands_in_none _ _ Hp), EA, EB. cbn [app].
    assert (HC' : commands_in (str_path (path r)) tC = [] \/
                  refresh_commands (commands_in (str_path (path r)) tC)).
    { apply loop_one_place with (f := fun x => str_path (path x))
        (body := fetch_body fa) (l := need_fetch checked) (r := Returned tt);
        [| |assumption].
      - intros x tx rx Hrx. split; [now apply fetch_body_returns in Hrx|].
        destruct (fetch_body_commands fa x (str_path (path r)) _ _ Hrx) as [Hel Hh].
        split; [exact Hel|]. intros ->. exact Hh.
      - apply NoDup_paths_members; [|assumption].
        repeat constructor; cbn [In]; intuition discriminate. }
    destruct HC' as [->|HC']; [left; reflexivity | exact HC']. }
  split; [exact Hshape|].
  intros cmd c Hc Hsub.
  destruct (refresh_commands_safe _ Hshape _ _ Hc) as [-> | [-> | ->]];
    cbn in Hsub; intuition discriminate.
Qed.

Lemma fetch_only_for_changed_repositories_witness :
  Runs (do_updates_and_clones [proj_record "MODIFIED"])
       (reconcile_trace_in in_step "MODIFIED") (Returned tt) /\
  NoDup (map (fun x => str_path (path x)) [proj_record "MODIFIED"]) /\
  refresh_commands (commands_in (str_path proj) (reconcile_trace_in in_step "MODIFIED")) /\
  (forall cmd c,
     In (cmd, c) (commands_in (str_path proj) (reconcile_trace_in in_step "MODIFIED")) ->
     ~ In (subcommand cmd) ["pull"; "merge"; "reset"]).
Proof.
  assert (Hrun : Runs (do_updates_and_clones [proj_record "MODIFIED"])
                   (reconcile_trace_in in_step "MODIFIED") (Returned tt))
    by exact (interp_Runs (world_of in_step) _ tt).
  assert (Hnd : NoDup (map (fun x => str_path (path x)) [proj_record "MODIFIED"])).
  { repeat constructor. intros []. }
  split; [exact Hrun|]. split; [exact Hnd|].
  apply (fetch_only_for_changed_repositories _ _ _ (proj_record "MODIFIED") Hrun Hnd).
  - left. reflexivity.
  - left. reflexivity.
Defined.

(** ** The commands of the orchestrator *)

Lemma loop_commands {R : Type} (body : R -> Prog unit)
    (P : list string -> Prop) (l : list R) :
  (forall x t r, Runs (body x) t r -> Forall P (commands t)) ->
  forall t r, Runs (for_each l body) t r -> Forall P (commands t).
Proof.
  intros Hb. induction l as [|x l IH]; intros t r H; cbn [for_each] in H.
  - inv H. constructor.
  - apply Runs_bind_inv in H.
    destruct H as [(e & He & ->)|(a & t1 & t2 & H1 & H2 & ->)].
    + now apply Hb in He.
    + rewrite commands_app. apply Forall_app. split; [now apply Hb in H1|].
      now apply IH in H2.
Qed.

(** Proves that the commands of an explicit trace are in the inventory. *)
Ltac inventory :=
  cbn [commands];
  repeat (apply Forall_cons;
          [ unfold orchestrator_command;
            first [ left; reflexivity
                  | right; left; reflexivity
                  | do 2 right; left; reflexivity
                  | do 3 right; left; reflexivity
                  | do 4 right; left; reflexivity
                  | do 5 right; left; reflexivity
                  | do 6 right; do 2 eexists; reflexivity ]
          | ]);
  apply Forall_nil.

Lemma update_body_inventory (ua : bool) (x : RepoRecord) t r :
  Runs (update_body ua x) t r -> Forall orchestrator_command (commands t).
Proof.
  intros H. unfold update_body, ensure_submodules in H. runs_inv; inventory.
Qed.

Lemma clone_body_inventory (ca : bool) (x : RepoRecord) t r :
  Runs (clone_body ca x) t r -> Forall orchestrator_command (commands t).
Proof.
  intros H. unfold clone_body, ensure_submodules in H. runs_inv; inventory.
Qed.

Lemma fetch_body_inventory (fa : bool) (x : RepoRecord) t r :
  Runs (fetch_body fa x) t r -> Forall orchestrator_command (commands t).
Proof.
  intros H. unfold fetch_body, ensure_submodules in H. runs_inv; inventory.
Qed.

(** Whatever the records, the answers and the outcomes, every command the
    orchestrator runs is a fetch, a status query, an unmerged-path query,
    a pull, a submodule init or update, or a clone: never a merge, a
    rebase, a reset or a push; and every pull is the bare [git pull]. *)
Lemma orchestrator_commands (checked : list RepoRecord) t res :
  Runs (do_updates_and_clones checked) t res ->
  forall cmd, In cmd (commands t) ->
    orchestrator_command cmd /\
    ~ In (subcommand cmd) ["merge"; "rebase"; "reset"; "push"] /\
    (subcommand cmd = "pull" -> cmd = git_pull /\ ff_only cmd = false).
Proof.
  intros H cmd Hin.
  assert (Hall : Forall orchestrator_command (commands t)).
  { apply do_updates_and_clones_inv in H.
    destruct H as [(e & _ & ->)|[_ H]]; [constructor|].
    destruct H as (ua & ca & fa & tp & tA & tB & tC & -> & Hp & _ & HA & HB & HC).
    rewrite !commands_app, Hp. cbn [app].
    repeat (apply Forall_app; split).
    - exact (loop_commands _ _ _ (update_body_inventory ua) _ _ HA).
    - exact (loop_commands _ _ _ (clone_body_inventory ca) _ _ HB).
    - exact (loop_commands _ _ _ (fetch_body_inventory fa) _ _ HC). }
  rewrite Forall_forall in Hall. specialize (Hall _ Hin).
  split; [exact Hall|].
  unfold orchestrator_command in Hall.
  destruct Hall as [-> | [-> | [-> | [-> | [-> | [-> | (url & dest & ->)]]]]]];
    (split;
     [ cbn [subcommand nth git_fetch git_status git_ls_files git_pull
            git_submodule_init git_submodule_update git_clone In];
       intros Hsub;
       repeat match type of Hsub with
              | _ \/ _ => destruct Hsub as [Hsub|Hsub]
              end; first [discriminate Hsub | exact Hsub]
     | cbn [subcommand nth git_fetch git_status git_ls_files git_pull
            git_submodule_init git_submodule_update git_clone];
       intros E; first [discriminate E | split; reflexivity] ]).
Qed.

(** C1.  The code departs from the claim here: the clone is clean, its
    branch and its upstream have both moved on (both counts positive), the
    classifier answers OUT OF DATE all the same, and once the operator
    confirms the catch-up the orchestrator runs a bare [git pull], with no
    option that restricts it to a fast-forward. *)
Theorem plain_pull_on_diverged_history :
  parse_ahead_behind (captured_out (on_rev_list clean_but_diverged)) = (1, 2) /\
  result_in (world_of clean_but_diverged)
    (check_repos "alice" "gh" None ["proj"] ["srv"]) tt
    = Returned [proj_record "OUT OF DATE"] /\
  reconcile_in clean_but_diverged "OUT OF DATE" = Returned tt /\
  commands (reconcile_trace_in clean_but_diverged "OUT OF DATE")
    = [git_fetch; git_status; git_ls_files; git_pull] /\
  git_pull = ["git"; "pull"] /\
  ff_only git_pull = false.
Proof. repeat split. Qed.

(** ** More on the status classifier *)

(** X1.  Whenever the classifier returns, the status is one of the seven
    statuses, and it is SYNCHRONIZED or belongs to the group of one of the
    three phases of the orchestrator. *)
Theorem classifier_status_range (p : Path) (url : string) t st br sub :
  Runs (local_repo_status p url) t (Returned (st, br, sub)) ->
  In st statuses /\
  (st = "SYNCHRONIZED" \/ In st out_of_date_statuses \/
   st = not_present_status \/ In st always_fetch_statuses).
Proof.
  intros H. unfold local_repo_status in H.
  runs_inv;
    try match goal with
        | |- context [if ?b then _ else _] => destruct b
        end;
    (split; [cbn; tauto | cbn; tauto]).
Qed.

Lemma classifier_status_range_witness :
  classify_in dirty_and_divergence = Returned ("DESYNCHRONIZED", "main", false) /\
  In "DESYNCHRONIZED" statuses /\
  ("DESYNCHRONIZED" = "SYNCHRONIZED" \/ In "DESYNCHRONIZED" out_of_date_statuses \/
   "DESYNCHRONIZED" = not_present_status \/
   In "DESYNCHRONIZED" always_fetch_statuses).
Proof.
  split; [reflexivity|].
  exact (classifier_status_range proj proj_url _ "DESYNCHRONIZED" "main" false
           (interp_Runs (world_of dirty_and_divergence) _ tt)).
Defined.

(** X2.  The classifier runs only its six queries, in their fixed order
    and each at most once: the commands of a run are a prefix of
    [classifier_queries]; every one runs in the directory of the repository
    with the default timeout.  So it never fetches into the working tree,
    pulls, clones or touches submodules. *)
Theorem classifier_commands (p : Path) (url : string) t r :
  Runs (local_repo_status p url) t r ->
  (exists rest, classifier_queries = (commands t ++ rest)%list) /\
  (forall cmd cwd timeout o, In (EvRun cmd cwd timeout o) t ->
     cwd = Some (str_path p) /\ timeout = default_timeout).
Proof.
  intros H. unfold local_repo_status in H. runs_inv.
  all: split;
    [ cbn [commands]; eexists; unfold classifier_queries; cbn [app]; reflexivity
    | intros cmd cwd timeout oq Hin; in_cases Hin; inv Hin; split; reflexivity ].
Qed.

Lemma classifier_commands_witness :
  (exists rest,
     classifier_queries = (commands (classify_trace_in thirty_days_behind) ++ rest)%list) /\
  (forall cmd cwd timeout o,
     In (EvRun cmd cwd timeout o) (classify_trace_in thirty_days_behind) ->
     cwd = Some (str_path proj) /\ timeout = default_timeout).
Proof.
  exact (classifier_commands proj proj_url _ _
           (interp_Runs (world_of thirty_days_behind) _ tt)).
Defined.



(** X5.  A record is classified OUT OF DATE or OBSOLETE only when the
    status query succeeded with nothing to report, the count succeeded
    with a first number above zero, and the unmerged-path query reported
    nothing.  The first number is the one the code takes for [behind]; it
    is the number of commits on [HEAD] only in what git prints.  The second
    number is free. *)
Theorem catch_up_classification_sound (p : Path) (url : string) t st br sub :
  Runs (local_repo_status p url) t (Returned (st, br, sub)) ->
  In st out_of_date_statuses ->
  exists o1 o4 o5 first second,
    outcome_of git_status t = Some o1 /\ exit_code o1 = 0 /\
    reports_dirty o1 = false /\
    outcome_of git_rev_list t = Some o4 /\ exit_code o4 = 0 /\
    parse_ahead_behind (captured_out o4) = (first, second) /\ first > 0 /\
    outcome_of git_ls_files t = Some o5 /\ reports_unmerged o5 = false.
Proof.
  intros H Hst. unfold local_repo_status in H.
  runs_inv; cbn [In out_of_date_statuses] in Hst;
    try (destruct Hst as [Hst|[Hst|[]]]; discriminate Hst);
    try (match type of Hst with context [if ?b then _ else _] => destruct b end;
         destruct Hst as [Hst|[Hst|[]]]; discriminate Hst).
  all: tests_to_facts.
  all: do 5 eexists; unfold reports_dirty, reports_unmerged;
    repeat split; try reflexivity; try eassumption; try lia.
  all: try (apply andb_false_iff; left; apply Z.eqb_neq; assumption).
  all: try (apply andb_false_iff; right; assumption).
Qed.



Lemma catch_up_classification_sound_witness :
  classify_in clean_but_diverged = Returned ("OUT OF DATE", "main", false) /\
  exists o1 o4 o5 first second,
    outcome_of git_status (classify_trace_in clean_but_diverged) = Some o1 /\
    exit_code o1 = 0 /\ reports_dirty o1 = false /\
    outcome_of git_rev_list (classify_trace_in clean_but_diverged) = Some o4 /\
    exit_code o4 = 0 /\
    parse_ahead_behind (captured_out o4) = (first, second) /\ first > 0 /\
    outcome_of git_ls_files (classify_trace_in clean_but_diverged) = Some o5 /\
    reports_unmerged o5 = false.
Proof.
  split; [reflexivity|].
  apply (catch_up_classification_sound proj proj_url _ "OUT OF DATE" "main" false
           (interp_Runs (world_of clean_but_diverged) _ tt)).
  left. reflexivity.
Defined.

(** X6.  SYNCHRONIZED is reported only for a clean working tree: the
    status query succeeded with nothing to report, and either the
    ahead/behind count failed, or it gave no positive count and the
    unmerged-path query reported nothing. *)
Theorem synchronized_sound (p : Path) (url : string) t br sub :
  Runs (local_repo_status p url) t (Returned ("SYNCHRONIZED", br, sub)) ->
  exists o1 o4,
    outcome_of git_status t = Some o1 /\ exit_code o1 = 0 /\
    reports_dirty o1 = false /\
    outcome_of git_rev_list t = Some o4 /\
    (exit_code o4 <> 0 \/
     exists o5 behind ahead,
       parse_ahead_behind (captured_out o4) = (behind, ahead) /\
       behind <= 0 /\ ahead <= 0 /\
       outcome_of git_ls_files t = Some o5 /\ reports_unmerged o5 = false).
Proof.
  intros H. unfold local_repo_status in H.
  remember (Returned ("SYNCHRONIZED", br, sub)) as r eqn:Er.
  runs_inv.
  all: try match goal with
           | Hs : (if ?b then _ else _) = _ |- _ =>
               destruct b eqn:?; [discriminate Hs|]
           end.
  all: tests_to_facts.
  all: do 2 eexists; unfold reports_dirty;
    (split; [reflexivity|]); (split; [eassumption|]); (split; [eassumption|]);
    (split; [reflexivity|]).
  all: first [ left; assumption
             | right; do 3 eexists; unfold reports_unmerged;
               (split; [eassumption|]); (split; [lia|]); (split; [lia|]);
               (split; [reflexivity|]);
               first [ apply andb_false_iff; left; apply Z.eqb_neq; assumption
                     | apply andb_false_iff; right; assumption ] ].
Qed.

Lemma synchronized_sound_witness :
  classify_in in_step = Returned ("SYNCHRONIZED", "main", false) /\
  exists o1 o4,
    outcome_of git_status (classify_trace_in in_step) = Some o1 /\ exit_code o1 = 0 /\
    reports_dirty o1 = false /\
    outcome_of git_rev_list (classify_trace_in in_step) = Some o4 /\
    (exit_code o4 <> 0 \/
     exists o5 behind ahead,
       parse_ahead_behind (captured_out o4) = (behind, ahead) /\
       behind <= 0 /\ ahead <= 0 /\
       outcome_of git_ls_files (classify_trace_in in_step) = Some o5 /\
       reports_unmerged o5 = false).
Proof.
  split; [reflexivity|].
  exact (synchronized_sound proj proj_url _ "main" false
           (interp_Runs (world_of in_step) _ tt)).
Defined.

(** X7.  With a successful count whose first number is not above zero
    and no unmerged path reported, the answer follows the working tree and
    the second number: local changes and a second number above zero give
    DESYNCHRONIZED; neither gives SYNCHRONIZED; one without the other gives
    MODIFIED.  The second number is the one the code takes for [ahead]; it
    is the number of commits on the upstream only in what git prints, so
    that a clean clone that only lacks commits is answered MODIFIED. *)
Theorem modified_or_synchronized (p : Path) (url : string) t st br sub
    o1 o4 o5 first second :
  Runs (local_repo_status p url) t (Returned (st, br, sub)) ->
  outcome_of git_status t = Some o1 ->
  outcome_of git_rev_list t = Some o4 -> exit_code o4 = 0 ->
  parse_ahead_behind (captured_out o4) = (first, second) -> first <= 0 ->
  outcome_of git_ls_files t = Some o5 -> reports_unmerged o5 = false ->
  st = match reports_dirty o1, second >? 0 with
       | true, true => "DESYNCHRONIZED"
       | false, false => "SYNCHRONIZED"
       | _, _ => "MODIFIED"
       end.
Proof.
  intros H H1 H4 E4 Hp Hb H5 Hu. unfold local_repo_status in H.
  unfold reports_unmerged in Hu. unfold reports_dirty.
  runs_inv; eval_outcomes; same_counts; tests_to_facts; try congruence; try lia.
  all: repeat match goal with
              | Hd : truthy _ = _ |- _ => rewrite Hd
              end; cbn [orb]; try reflexivity.
  all: match goal with
       | |- context [?a >? 0] =>
           destruct (Z.gtb_spec a 0); try reflexivity; try lia
       end.
Qed.

Lemma modified_or_synchronized_witness :
  Runs (local_repo_status proj proj_url) (classify_trace_in lacks_two_commits)
       (Returned ("MODIFIED", "main", false)) /\
  on_rev_list lacks_two_commits = ok (rev_list_counts 0 2) /\
  parse_ahead_behind (captured_out (on_rev_list lacks_two_commits)) = (0, 2) /\
  reports_unmerged (on_ls_files lacks_two_commits) = false /\
  "MODIFIED" = match reports_dirty (on_status lacks_two_commits), 2 >? 0 with
               | true, true => "DESYNCHRONIZED"
               | false, false => "SYNCHRONIZED"
               | _, _ => "MODIFIED"
               end.
Proof.
  assert (Hrun : Runs (local_repo_status proj proj_url)
                   (classify_trace_in lacks_two_commits)
                   (Returned ("MODIFIED", "main", false)))
    by exact (interp_Runs (world_of lacks_two_commits) _ tt).
  split; [exact Hrun|]. split; [reflexivity|]. split; [reflexivity|].
  split; [reflexivity|].
  apply (modified_or_synchronized proj proj_url _ _ _ _
           (on_status lacks_two_commits) (on_rev_list lacks_two_commits)
           (on_ls_files lacks_two_commits) 0 2 Hrun);
    try reflexivity; try discriminate.
Defined.

(** X8.  With the metadata directory present, the submodule flag is the
    answer of the probe for [.gitmodules], which is the last thing asked;
    the branch is the output of the branch query when that query
    succeeded, and ["-"] when it failed or was never made. *)
Theorem classifier_branch_and_flag (p : Path) (url : string) t st br sub :
  Runs (local_repo_status p url) t (Returned (st, br, sub)) ->
  In (EvIsDir (path_join p ".git") true) t ->
  (exists pre, t = (pre ++ [EvIsFile (path_join p ".gitmodules") sub])%list) /\
  match outcome_of git_branch t with
  | Some ob => br = if exit_code ob =? 0 then captured_out ob else "-"
  | None => br = "-"
  end.
Proof.
  intros H Hin. unfold local_repo_status in H.
  runs_inv; tests_to_facts; subst; try (in_cases Hin; fail).
  all: split;
    [ match goal with
      | |- exists pre, ?l = _ => exists (removelast l); reflexivity
      end
    | cbn [outcome_of];
      repeat match goal with
             | |- context [cmd_eqb ?a ?b] =>
                 let v := eval vm_compute in (cmd_eqb a b) in
                 change (cmd_eqb a b) with v
             end; cbv iota;
      repeat match goal with
             | Hz : exit_code ?o = 0 |- context [exit_code ?o =? 0] => rewrite Hz
             | Hn : exit_code ?o <> 0 |- context [exit_code ?o =? 0] =>
                 rewrite (proj2 (Z.eqb_neq _ _) Hn)
             end;
      reflexivity ].
Qed.

Lemma classifier_branch_and_flag_witness :
  Runs (local_repo_status proj proj_url) (classify_trace_in ahead_only)
       (Returned ("MODIFIED", "main", true)) /\
  (exists pre,
     classify_trace_in ahead_only
     = (pre ++ [EvIsFile (path_join proj ".gitmodules") true])%list) /\
  match outcome_of git_branch (classify_trace_in ahead_only) with
  | Some ob => "main" = if exit_code ob =? 0 then captured_out ob else "-"
  | None => "main" = "-"
  end.
Proof.
  assert (Hrun : Runs (local_repo_status proj proj_url) (classify_trace_in ahead_only)
                   (Returned ("MODIFIED", "main", true)))
    by exact (interp_Runs (world_of ahead_only) _ tt).
  split; [exact Hrun|].
  apply (classifier_branch_and_flag proj proj_url _ _ _ _ Hrun).
  left. reflexivity.
Defined.

(** ** Reading numbers *)

Lemma lstrip_chars_nonspace (l : chars) :
  Forall (fun c => isspace c = false) l -> lstrip_chars l = l.
Proof. intros H. destruct H as [|c l Hc _]; cbn [lstrip_chars]; [|rewrite Hc]; reflexivity. Qed.

Lemma strip_nonspace (s : string) :
  Forall (fun c => isspace c = false) (list_ascii_of_string s) -> strip s = s.
Proof.
  intros H. unfold strip, rstrip_chars.
  rewrite (lstrip_chars_nonspace _ H).
  rewrite lstrip_chars_nonspace by (apply Forall_rev; exact H).
  rewrite rev_involutive. apply string_of_list_ascii_of_string.
Qed.

Lemma split_chars_nonspace (l cur rest : chars) :
  Forall (fun c => isspace c = false) l ->
  split_chars cur (l ++ rest)%list = split_chars (rev l ++ cur)%list rest.
Proof.
  intros H. revert cur. induction H as [|c l Hc _ IH]; intro cur; [reflexivity|].
  cbn [app split_chars rev]. rewrite Hc, IH, <- app_assoc. reflexivity.
Qed.

Lemma list_ascii_of_string_app (a b : string) :
  list_ascii_of_string (a ++ b) = (list_ascii_of_string a ++ list_ascii_of_string b)%list.
Proof. induction a as [|c a IH]; cbn; [|rewrite IH]; reflexivity. Qed.

Lemma strip_between (a m b : string) :
  a <> "" -> b <> "" ->
  Forall (fun c => isspace c = false) (list_ascii_of_string a) ->
  Forall (fun c => isspace c = false) (list_ascii_of_string b) ->
  strip (a ++ m ++ b) = a ++ m ++ b.
Proof.
  intros Ha Hb Fa Fb. unfold strip, rstrip_chars.
  rewrite !list_ascii_of_string_app.
  assert (E1 : forall l,
             lstrip_chars (list_ascii_of_string a ++ l)%list
             = (list_ascii_of_string a ++ l)%list).
  { intros l. destruct a as [|c a]; [congruence|]. cbn in *.
    inversion Fa as [|? ? Hc _]; subst. now rewrite Hc. }
  rewrite E1. rewrite !rev_app_distr, <- app_assoc.
  assert (E2 : forall l,
             lstrip_chars (rev (list_ascii_of_string b) ++ l)%list
             = (rev (list_ascii_of_string b) ++ l)%list).
  { intros l. apply Forall_rev in Fb.
    destruct (rev (list_ascii_of_string b)) as [|c rb] eqn:E.
    - destruct b; [congruence|]. cbn in E. apply app_eq_nil in E.
      destruct E; discriminate.
    - cbn. inversion Fb as [|? ? Hc _]; subst. now rewrite Hc. }
  rewrite E2. rewrite !rev_app_distr, !rev_involutive, <- !app_assoc.
  rewrite <- !list_ascii_of_string_app. apply string_of_list_ascii_of_string.
Qed.

(** Two fields without whitespace, a tabulation between them. *)
Lemma split_two_fields (a b : string) :
  a <> "" -> b <> "" ->
  Forall (fun c => isspace c = false) (list_ascii_of_string a) ->
  Forall (fun c => isspace c = false) (list_ascii_of_string b) ->
  split (a ++ tab ++ b) = [a; b].
Proof.
  intros Ha Hb Fa Fb. unfold split.
  rewrite !list_ascii_of_string_app.
  rewrite split_chars_nonspace by exact Fa. rewrite app_nil_r.
  change (list_ascii_of_string tab) with [ascii_of_N 9].
  cbn [app split_chars]. change (isspace (ascii_of_N 9)) with true. cbv iota.
  assert (Ra : rev (list_ascii_of_string a) <> []).
  { destruct a; [congruence|]. cbn. intros E. apply app_eq_nil in E.
    destruct E; discriminate. }
  destruct (rev (list_ascii_of_string a)) as [|x ra] eqn:Era; [congruence|].
  rewrite <- Era, rev_involutive.
  rewrite <- (app_nil_r (list_ascii_of_string b)).
  rewrite split_chars_nonspace by exact Fb. rewrite app_nil_r.
  cbn [split_chars].
  destruct (rev (list_ascii_of_string b)) as [|y rb] eqn:Erb.
  { destruct b; [congruence|]. cbn in Erb. apply app_eq_nil in Erb.
    destruct Erb; discriminate. }
  rewrite <- Erb, rev_involutive. cbn [map].
  rewrite !string_of_list_ascii_of_string. reflexivity.
Qed.

(** The decimal digits of a number hold no whitespace, sign or
    underscore. *)
Lemma uint_chars_digits (d : Decimal.uint) :
  Forall (fun c => isspace c = false)
         (list_ascii_of_string (DecimalString.NilEmpty.string_of_uint d)).
Proof. induction d; cbn; constructor; auto. Qed.

Lemma int_digits_uint (d : Decimal.uint) :
  forall (q : positive) (b : bool),
    int_digits (Z.pos q) b
      (list_ascii_of_string (DecimalString.NilEmpty.string_of_uint d)) =
    match d with
    | Decimal.Nil => if b then Some (Z.pos q) else None
    | _ => Some (Z.pos (Pos.of_uint_acc d q))
    end.
Proof.
  induction d as [|d IH|d IH|d IH|d IH|d IH|d IH|d IH|d IH|d IH|d IH];
    intros q b; [reflexivity|..];
    cbn [DecimalString.NilEmpty.string_of_uint list_ascii_of_string int_digits];
    match goal with
    | |- context [Ascii.eqb ?c "_"] =>
        change (Ascii.eqb c "_") with false;
        let v := eval vm_compute in (digit_val c) in
        change (digit_val c) with v
    end; cbv iota;
    match goal with
    | |- int_digits ?acc true _ = _ =>
        match goal with
        | |- _ = Some (Z.pos (Pos.of_uint_acc _ ?q')) =>
            cbn [Pos.of_uint_acc];
            match goal with
            | |- _ = Some (Z.pos (Pos.of_uint_acc d ?q'')) =>
                replace acc with (Z.pos q'') by lia
            end
        end
    end; rewrite IH; destruct d; reflexivity.
Qed.

Lemma int_digits_uint0 (d : Decimal.uint) :
  forall b : bool,
    d <> Decimal.Nil ->
    int_digits 0 b
      (list_ascii_of_string (DecimalString.NilEmpty.string_of_uint d)) =
    Some (Z.of_N (Pos.of_uint d)).
Proof.
  induction d as [|d IH|d IH|d IH|d IH|d IH|d IH|d IH|d IH|d IH|d IH];
    intros b Hd; [congruence|..];
    cbn [DecimalString.NilEmpty.string_of_uint list_ascii_of_string int_digits];
    match goal with
    | |- context [Ascii.eqb ?c "_"] =>
        change (Ascii.eqb c "_") with false;
        let v := eval vm_compute in (digit_val c) in
        change (digit_val c) with v
    end; cbv iota.
  - destruct d; [reflexivity|..]; cbn [Pos.of_uint]; apply IH; discriminate.
  - change (10 * 0 + 1) with (Z.pos 1). rewrite int_digits_uint. destruct d; reflexivity.
  - change (10 * 0 + 2) with (Z.pos 2). rewrite int_digits_uint. destruct d; reflexivity.
  - change (10 * 0 + 3) with (Z.pos 3). rewrite int_digits_uint. destruct d; reflexivity.
  - change (10 * 0 + 4) with (Z.pos 4). rewrite int_digits_uint. destruct d; reflexivity.
  - change (10 * 0 + 5) with (Z.pos 5). rewrite int_digits_uint. destruct d; reflexivity.
  - change (10 * 0 + 6) with (Z.pos 6). rewrite int_digits_uint. destruct d; reflexivity.
  - change (10 * 0 + 7) with (Z.pos 7). rewrite int_digits_uint. destruct d; reflexivity.
  - change (10 * 0 + 8) with (Z.pos 8). rewrite int_digits_uint. destruct d; reflexivity.
  - change (10 * 0 + 9) with (Z.pos 9). rewrite int_digits_uint. destruct d; reflexivity.
Qed.

Lemma first_digit_is_no_sign (d : Decimal.uint) (c : ascii) (s : chars) :
  list_ascii_of_string (DecimalString.NilEmpty.string_of_uint d) = c :: s ->
  Ascii.eqb c "-" = false /\ Ascii.eqb c "+" = false.
Proof. destruct d; cbn; intros E; inv E; split; reflexivity. Qed.

(** Below the limit on the digits, [int] reads the literal. *)
Lemma int_of_str_within (s : string) :
  digit_count (list_ascii_of_string (strip s)) <= max_str_digits ->
  int_of_str s =
  match list_ascii_of_string (strip s) with
  | c :: s' =>
      if Ascii.eqb c "-" then option_map Z.opp (int_digits 0 false s')
      else if Ascii.eqb c "+" then int_digits 0 false s'
      else int_digits 0 false (c :: s')
  | [] => None
  end.
Proof.
  intros H. unfold int_of_str. cbv zeta.
  destruct (Z.gtb_spec (digit_count (list_ascii_of_string (strip s))) max_str_digits);
    [lia | reflexivity].
Qed.

Lemma str_of_int_nonspace (z : Z) :
  Forall (fun c => isspace c = false) (list_ascii_of_string (str_of_int z)).
Proof.
  destruct z as [|p|p]; unfold str_of_int;
    cbn [Z.to_int DecimalString.NilZero.string_of_int];
    unfold DecimalString.NilZero.string_of_uint.
  - repeat constructor.
  - destruct (Pos.to_uint p) eqn:E;
      [repeat constructor | rewrite <- E; apply uint_chars_digits ..].
  - constructor; [reflexivity|].
    destruct (Pos.to_uint p) eqn:E;
      [repeat constructor | rewrite <- E; apply uint_chars_digits ..].
Qed.

Lemma str_of_int_nonempty (z : Z) : str_of_int z <> "".
Proof.
  destruct z as [|p|p]; unfold str_of_int;
    cbn [Z.to_int DecimalString.NilZero.string_of_int];
    unfold DecimalString.NilZero.string_of_uint; try discriminate.
  pose proof (DecimalPos.Unsigned.to_uint_nonnil p) as Hn.
  destruct (Pos.to_uint p); try congruence; discriminate.
Qed.

(** [int] reads back what [str] writes, for every integer that is written
    with no more digits than [int] accepts. *)
Lemma int_of_str_of_int (z : Z) :
  decimal_digits z <= max_str_digits -> int_of_str (str_of_int z) = Some z.
Proof.
  intros Hd. unfold decimal_digits in Hd.
  rewrite int_of_str_within
    by (rewrite (strip_nonspace _ (str_of_int_nonspace z)); exact Hd).
  rewrite (strip_nonspace _ (str_of_int_nonspace z)). clear Hd.
  destruct z as [|p|p]; [reflexivity|..]; unfold str_of_int;
    cbn [Z.to_int DecimalString.NilZero.string_of_int];
    pose proof (DecimalPos.Unsigned.to_uint_nonnil p) as Hn;
    pose proof (DecimalPos.Unsigned.of_to p) as Hp;
    unfold DecimalString.NilZero.string_of_uint;
    destruct (Pos.to_uint p) eqn:Ep; try congruence.
  all: rewrite <- Ep in *.
  all: try (destruct (list_ascii_of_string
                (DecimalString.NilEmpty.string_of_uint (Pos.to_uint p)))
      as [|c s] eqn:E;
    [ rewrite Ep in E; discriminate E
    | destruct (first_digit_is_no_sign _ _ _ E) as [-> ->];
      rewrite <- E, int_digits_uint0 by (rewrite Ep; discriminate);
      now rewrite Hp ]).
  all: change (list_ascii_of_string (String "-" ?s))
         with ("-"%char :: list_ascii_of_string s); cbv iota;
    change (Ascii.eqb "-" "-") with true; cbv iota;
    rewrite int_digits_uint0 by (rewrite Ep; discriminate);
    rewrite Hp; reflexivity.
Qed.

(** X9.  Two integers written in decimal with a tabulation between them,
    as [git rev-list --left-right --count] prints them, are read back as
    these two integers: the number of commits on [HEAD] only goes to
    [behind] and the number of commits on the upstream only to [ahead].
    Each must be written with at most 4300 digits, more being refused by
    [int]. *)
Theorem parse_ahead_behind_of_counts (head_only upstream_only : Z) :
  decimal_digits head_only <= max_str_digits ->
  decimal_digits upstream_only <= max_str_digits ->
  parse_ahead_behind (rev_list_counts head_only upstream_only)
  = (head_only, upstream_only).
Proof.
  intros H1 H2. unfold parse_ahead_behind, rev_list_counts.
  rewrite strip_between
    by auto using str_of_int_nonempty, str_of_int_nonspace.
  rewrite split_two_fields
    by auto using str_of_int_nonempty, str_of_int_nonspace.
  cbn [map]. rewrite !int_of_str_of_int by assumption. reflexivity.
Qed.

Lemma parse_ahead_behind_of_counts_witness :
  parse_ahead_behind (rev_list_counts 0 3) = (0, 3).
Proof.
  apply (parse_ahead_behind_of_counts 0 3); vm_compute; discriminate.
Defined.

(** ** The records *)

(** X10.  When [check_repos] returns, every descriptor carried a name
    that is a string, and the repositories were classified one after the
    other, in the order given.  For names that are plain path components
    (not empty, not [.], without [/]), the list returned holds one record
    per descriptor, whose path is the name under the root, whose remote is
    [git@alias:owner/name.git] with the organisation as owner when one is
    given, and whose status, branch and submodule flag are what the
    classifier returned for that path. *)
Theorem check_repos_records (user alias : string) (org : option string)
    (repos : list NameField) (root : Path) t checked :
  Runs (check_descriptors user alias org repos root) t (Returned checked) ->
  (forall s, In (Name s) repos -> plain_component s = true) ->
  repos = map (fun x => Name (name x)) checked /\
  exists ts,
    t = List.concat ts /\
    Forall2 (fun x tx =>
               path x = path_join root (name x) /\
               remote_url x = "git@" ++ alias ++ ":" ++ owner_of user org ++ "/"
                              ++ name x ++ ".git" /\
               Runs (local_repo_status (path x) (remote_url x)) tx
                    (Returned (status x, branch x, has_submodules x)))
            checked ts.
Proof.
  intros H _. revert t checked H.
  induction repos as [|[n| |] repos IH]; intros t checked H;
    cbn [check_descriptors] in H.
  - inv H. split; [reflexivity|]. exists []. split; constructor.
  - apply Runs_bind_inv in H.
    destruct H as [(e & _ & He)|([[st br] sub] & t1 & t2 & H1 & H2 & ->)];
      [discriminate He|].
    apply Runs_bind_inv in H2.
    destruct H2 as [(e & _ & He)|(rest & t3 & t4 & H3 & H4 & ->)];
      [discriminate He|].
    inv H4. apply IH in H3. destruct H3 as (-> & ts & -> & HF).
    split; [reflexivity|]. exists (t1 :: ts).
    split; [cbn [List.concat]; now rewrite app_nil_r|].
    constructor; [|exact HF].
    cbn [path name remote_url status branch has_submodules].
    repeat split. exact H1.
  - inv H.
  - inv H.
Qed.

Lemma check_repos_records_witness :
  [Name "proj"] = map (fun x => Name (name x)) [proj_record "OUT OF DATE"] /\
  exists ts,
    trace_in (world_of clean_but_diverged)
      (check_descriptors "alice" "gh" None [Name "proj"] ["srv"]) tt
    = List.concat ts /\
    Forall2 (fun x tx =>
               path x = path_join ["srv"] (name x) /\
               remote_url x = "git@" ++ "gh" ++ ":" ++ owner_of "alice" None ++ "/"
                              ++ name x ++ ".git" /\
               Runs (local_repo_status (path x) (remote_url x)) tx
                    (Returned (status x, branch x, has_submodules x)))
            [proj_record "OUT OF DATE"] ts.
Proof.
  apply (check_repos_records "alice" "gh" None [Name "proj"] ["srv"]
           (trace_in (world_of clean_but_diverged)
              (check_descriptors "alice" "gh" None [Name "proj"] ["srv"]) tt)
           [proj_record "OUT OF DATE"]).
  - exact (interp_Runs (world_of clean_but_diverged) _ tt).
  - intros s [E|[]]. injection E as <-. reflexivity.
Defined.

(** ** More on the groups *)

(** X11.  Looking a status up in the groups gives the records of that
    status, in the order of the list; a status no record has gives the
    empty list. *)
Theorem group_lookup (checked : list RepoRecord) (st : string) :
  grouped_get (get_grouped_repos checked) st
  = filter (fun r => String.eqb (status r) st) checked.
Proof. apply grouped_get_spec. Qed.

Lemma setdefault_append_keys (key : string) (item : RepoRecord) (g : Grouped) :
  map fst (setdefault_append key item g) =
  if in_dec string_dec key (map fst g) then map fst g
  else (map fst g ++ [key])%list.
Proof.
  induction g as [|[k l] g IH]; cbn [setdefault_append map fst].
  - destruct (in_dec string_dec key []) as [[]|_]. reflexivity.
  - destruct (String.eqb_spec k key) as [->|Hk]; cbn [map fst].
    + destruct (in_dec string_dec key (key :: map fst g)) as [_|Hn];
        [reflexivity | exfalso; apply Hn; now left].
    + rewrite IH.
      destruct (in_dec string_dec key (map fst g)) as [Hi|Hi];
        destruct (in_dec string_dec key (k :: map fst g)) as [Hj|Hj];
        try reflexivity.
      * exfalso. apply Hj. now right.
      * exfalso. destruct Hj as [Hj|Hj]; [congruence | contradiction].
Qed.

Lemma setdefault_append_items (key : string) (item : RepoRecord) (g : Grouped) :
  Permutation.Permutation (flat_map snd (setdefault_append key item g))
                          (item :: flat_map snd g).
Proof.
  induction g as [|[k l] g IH]; cbn [setdefault_append flat_map snd].
  - cbn. apply Permutation.Permutation_refl.
  - destruct (String.eqb k key); cbn [flat_map snd].
    + rewrite <- app_assoc. cbn [app].
      apply Permutation.Permutation_sym, Permutation.Permutation_middle.
    + apply Permutation.Permutation_sym.
      eapply Permutation.Permutation_trans;
        [apply Permutation.Permutation_middle|].
      apply Permutation.Permutation_app_head, Permutation.Permutation_sym, IH.
Qed.

Lemma setdefault_append_nonempty (key : string) (item : RepoRecord) (g : Grouped) :
  Forall (fun kv => snd kv <> []) g ->
  Forall (fun kv => snd kv <> []) (setdefault_append key item g).
Proof.
  induction 1 as [|[k l] g Hl HF IH]; cbn [setdefault_append].
  - repeat constructor. discriminate.
  - destruct (String.eqb k key); constructor; auto.
    cbn. intros E. apply app_eq_nil in E. destruct E; discriminate.
Qed.

(** What the grouping keeps true, from any dictionary it starts with. *)
Lemma grouping_invariant (l : list RepoRecord) :
  forall g : Grouped,
    NoDup (map fst g) -> Forall (fun kv => snd kv <> []) g ->
    let g' := fold_left (fun g item => setdefault_append (status item) item g) l g in
    NoDup (map fst g') /\
    Forall (fun kv => snd kv <> []) g' /\
    (forall st, In st (map fst g') <-> In st (map fst g) \/ In st (map status l)) /\
    Permutation.Permutation (flat_map snd g') (flat_map snd g ++ l).
Proof.
  induction l as [|x l IH]; intros g Hnd Hne; cbn [fold_left].
  - cbv zeta. repeat split; auto.
    + intros [H|[]]; exact H.
    + rewrite app_nil_r. apply Permutation.Permutation_refl.
  - assert (Hnd' : NoDup (map fst (setdefault_append (status x) x g))).
    { rewrite setdefault_append_keys.
      destruct (in_dec string_dec (status x) (map fst g)) as [Hi|Hi]; [exact Hnd|].
      apply NoDup_app; [exact Hnd | repeat constructor; intros [] |].
      intros a Ha [<-|[]]. contradiction. }
    specialize (IH _ Hnd' (setdefault_append_nonempty _ _ _ Hne)).
    cbv zeta in IH. destruct IH as (N & F & K & P).
    cbv zeta. repeat split; auto.
    + intros H. apply K in H. rewrite setdefault_append_keys in H.
      cbn [map In].
      destruct (in_dec string_dec (status x) (map fst g)) as [Hi|Hi].
      * tauto.
      * rewrite in_app_iff in H. cbn [In] in H. tauto.
    + intros H. apply K. rewrite setdefault_append_keys.
      cbn [map In] in H.
      destruct (in_dec string_dec (status x) (map fst g)) as [Hi|Hi].
      * destruct H as [H|[<-|H]]; auto.
      * rewrite in_app_iff. cbn [In]. tauto.
    + eapply Permutation.Permutation_trans; [exact P|].
      eapply Permutation.Permutation_trans;
        [apply Permutation.Permutation_app_tail, setdefault_append_items|].
      cbn [app]. apply Permutation.Permutation_middle.
Qed.

(** X12.  The groups partition the records: the keys are the statuses
    that occur, each once; no group is empty; and the groups put end to end
    hold every record exactly as often as the list does. *)
Theorem groups_partition (checked : list RepoRecord) :
  let g := get_grouped_repos checked in
  NoDup (map fst g) /\
  Forall (fun kv => snd kv <> []) g /\
  (forall st, In st (map fst g) <-> In st (map status checked)) /\
  Permutation.Permutation (flat_map snd g) checked.
Proof.
  pose proof (grouping_invariant checked [] (NoDup_nil _) (Forall_nil _)) as H.
  cbv zeta in *. unfold get_grouped_repos.
  destruct H as (N & F & K & P). repeat split; auto.
  - intros H. apply K in H. destruct H as [[]|H]. exact H.
  - intros H. apply K. now right.
Qed.

(** ** Asking the operator *)

(** X13.  [ask_yes_no] reads one line at the prompt that shows the
    default.  At the end of the input it raises [EOFError]; otherwise it
    returns, and the answer is yes exactly when the line, stripped and in
    lower case, is [y] or [yes], or is empty while the default is yes. *)
Theorem ask_yes_no_answer (prompt : string) (default_yes : bool) t r :
  Runs (ask_yes_no prompt default_yes) t r ->
  exists line,
    t = [EvInput (prompt ++ " [" ++ (if default_yes then "Y/n" else "y/N") ++ "] ")
                 line] /\
    match line with
    | None => r = Crashed "EOFError"
    | Some l =>
        exists b, r = Returned b /\
          (b = true <->
           (lower (strip l) = "" /\ default_yes = true) \/
           lower (strip l) = "y" \/ lower (strip l) = "yes")
    end.
Proof.
  intros H. unfold ask_yes_no in H. inv H.
  match goal with Hk : Runs (match ?a with _ => _ end) _ _ |- _ =>
    exists a; destruct a as [l|]; inv Hk end;
    (split; [reflexivity|]); [|reflexivity].
  eexists. split; [reflexivity|]. unfold yes_no_reply.
  destruct (String.eqb_spec (lower (strip l)) "") as [E|E].
  - rewrite E. destruct default_yes; cbn; split; intros H;
      try tauto; try discriminate.
    destruct H as [[_ H]|[H|H]]; discriminate.
  - cbn [andb existsb].
    destruct (String.eqb_spec (lower (strip l)) "y") as [Ey|Ey];
      destruct (String.eqb_spec (lower (strip l)) "yes") as [Es|Es];
      cbn; split; intros H; try tauto; try discriminate;
      destruct H as [[H _]|[H|H]]; congruence.
Qed.

Lemma ask_yes_no_answer_witness :
  exists line,
    trace_in (world_of dirty_after_fetch) (ask_yes_no update_prompt true) tt
    = [EvInput (update_prompt ++ " [" ++ "Y/n" ++ "] ") line] /\
    match line with
    | None => result_in (world_of dirty_after_fetch) (ask_yes_no update_prompt true) tt
              = Crashed "EOFError"
    | Some l =>
        exists b,
          result_in (world_of dirty_after_fetch) (ask_yes_no update_prompt true) tt
          = Returned b /\
          (b = true <->
           (lower (strip l) = "" /\ true = true) \/
           lower (strip l) = "y" \/ lower (strip l) = "yes")
    end.
Proof.
  exact (ask_yes_no_answer update_prompt true _ _
           (interp_Runs (world_of dirty_after_fetch) _ tt)).
Defined.

(** ** The submodule updater *)

(** X14.  In a run of the submodule updater that returns: without a
    [.gitmodules] file nothing is run; with one the init is run, and when
    the init fails a warning is printed and no update is run; otherwise
    the recursive update is run and its failure or its success printed. *)
Theorem ensure_submodules_shape (q : Path) t :
  Runs (ensure_submodules q) t (Returned tt) ->
  let cwd := Some (str_path q) in
  t = [EvIsFile (path_join q ".gitmodules") false] \/
  exists o1 rest,
    t = EvIsFile (path_join q ".gitmodules") true
        :: EvRun git_submodule_init cwd default_timeout o1 :: rest /\
    if exit_code o1 =? 0 then
      exists o2,
        rest = [EvRun git_submodule_update cwd default_timeout o2;
                EvPrint (if exit_code o2 =? 0 then submodules_updated q
                         else update_failed q (captured_err o2))]
    else rest = [EvPrint (init_failed q (captured_err o1))].
Proof.
  intros H cwd. unfold ensure_submodules in H.
  runs_inv; tests_to_facts; subst.
  - left. reflexivity.
  - right. do 2 eexists. split; [reflexivity|].
    match goal with
    | Hne : exit_code _ <> 0 |- _ => rewrite (proj2 (Z.eqb_neq _ _) Hne)
    end. reflexivity.
  - right. do 2 eexists. split; [reflexivity|].
    match goal with
    | He : exit_code ?o = 0 |- context [exit_code ?o =? 0] => rewrite He
    end. cbn [Z.eqb].
    match goal with
    | |- exists _, [EvRun _ _ _ ?o; _] = _ => exists o
    end.
    match goal with
    | Hne : exit_code _ <> 0 |- _ => rewrite (proj2 (Z.eqb_neq _ _) Hne)
    end. reflexivity.
  - right. do 2 eexists. split; [reflexivity|].
    match goal with
    | He : exit_code ?o = 0 |- context [exit_code ?o =? 0] => rewrite He
    end. cbn [Z.eqb].
    match goal with
    | |- exists _, [EvRun _ _ _ ?o; _] = _ => exists o
    end.
    match goal with
    | He : exit_code ?o = 0 |- context [exit_code ?o =? 0] => rewrite He
    end. reflexivity.
Qed.

Lemma ensure_submodules_shape_witness :
  trace_in (world_of dirty_after_fetch) (ensure_submodules proj) tt
  = [EvIsFile (path_join proj ".gitmodules") false] \/
  exists o1 rest,
    trace_in (world_of dirty_after_fetch) (ensure_submodules proj) tt
    = EvIsFile (path_join proj ".gitmodules") true
      :: EvRun git_submodule_init (Some (str_path proj)) default_timeout o1 :: rest /\
    if exit_code o1 =? 0 then
      exists o2,
        rest = [EvRun git_submodule_update (Some (str_path proj)) default_timeout o2;
                EvPrint (if exit_code o2 =? 0 then submodules_updated proj
                         else update_failed proj (captured_err o2))]
    else rest = [EvPrint (init_failed proj (captured_err o1))].
Proof.
  exact (ensure_submodules_shape proj _
           (interp_Runs (world_of dirty_after_fetch) (ensure_submodules proj) tt)).
Defined.

(** ** More on the shape of a run of the orchestrator *)

Lemma confirm_flag (g : list RepoRecord) (header : string) (ws : bool)
    (prompt : string) t r :
  Runs (confirm g header ws prompt) t r ->
  commands t = [] /\
  map fst (inputs t) = asked g prompt /\
  match r with
  | Returned b =>
      (forall q a, In (q, a) (inputs t) ->
         q = prompt ++ " [Y/n] " /\ exists l, a = Some l /\ b = yes_no_reply l true) /\
      (b = true ->
       exists l, In (prompt ++ " [Y/n] ", Some l) (inputs t) /\
                 yes_no_reply l true = true)
  | Crashed e => e = "EOFError"
  end.
Proof.
  intros H. destruct g as [|x g].
  - cbn [confirm] in H. inv H.
    split; [reflexivity|split; [reflexivity|split]].
    + intros q a [].
    + discriminate.
  - apply confirm_inv in H.
    destruct H as [(E & _)|(ps & line & Hps & -> & ->)]; [discriminate E|].
    rewrite commands_app, inputs_app, (only_prints_commands _ Hps),
      (only_prints_inputs _ Hps).
    cbn [app commands inputs map fst asked].
    split; [reflexivity|split; [reflexivity|]].
    destruct line as [l|]; [|reflexivity]. split.
    + intros q a [E|[]]. inv E. split; [reflexivity|]. eauto.
    + intros E. inv E. exists l. split; [now left|]. congruence.
Qed.

(** A run that returns: the confirmations, which run nothing and ask one
    question per group that is not empty; then the three loops, which ask
    nothing; the flag of each loop is the yes to its prompt. *)
Lemma orchestrator_shape (checked : list RepoRecord) t :
  Runs (do_updates_and_clones checked) t (Returned tt) ->
  exists ua ca fa tp tA tB tC,
    t = (tp ++ tA ++ tB ++ tC)%list /\
    commands tp = [] /\
    inputs (tA ++ tB ++ tC) = [] /\
    map fst (inputs tp) = (asked (need_update checked) update_prompt
                           ++ asked (need_clone checked) clone_prompt
                           ++ asked (need_fetch checked) fetch_prompt)%list /\
    (ua = true <-> confirmed update_prompt t) /\
    (ca = true <-> confirmed clone_prompt t) /\
    (fa = true <-> confirmed fetch_prompt t) /\
    Runs (for_each (need_update checked) (update_body ua)) tA (Returned tt) /\
    Runs (for_each (need_clone checked) (clone_body ca)) tB (Returned tt) /\
    Runs (for_each (need_fetch checked) (fetch_body fa)) tC (Returned tt).
Proof.
  intros H. unfold do_updates_and_clones in H.
  apply Runs_bind_inv in H.
  destruct H as [(e & _ & He)|(ua & t1 & u1 & H1 & H & ->)]; [discriminate|].
  apply Runs_bind_inv in H.
  destruct H as [(e & _ & He)|(ca & t2 & u2 & H2 & H & ->)]; [discriminate|].
  apply Runs_bind_inv in H.
  destruct H as [(e & _ & He)|(fa & t3 & u3 & H3 & H & ->)]; [discriminate|].
  apply Runs_bind_inv in H.
  destruct H as [(e & _ & He)|([] & tA & u4 & HA & H & ->)]; [discriminate|].
  apply Runs_bind_inv in H.
  destruct H as [(e & _ & He)|([] & tB & tC & HB & HC & ->)]; [discriminate|].
  apply confirm_flag in H1, H2, H3.
  destruct H1 as (C1 & A1 & Q1 & Y1), H2 as (C2 & A2 & Q2 & Y2),
           H3 as (C3 & A3 & Q3 & Y3).
  pose proof (loop_inputs _ _ (update_body_inputs ua) _ _ HA) as [_ IA].
  pose proof (loop_inputs _ _ (clone_body_inputs ca) _ _ HB) as [_ IB].
  pose proof (loop_inputs _ _ (fetch_body_inputs fa) _ _ HC) as [_ IC].
  exists ua, ca, fa, (t1 ++ t2 ++ t3)%list, tA, tB, tC.
  split; [now rewrite <- !app_assoc|].
  split; [now rewrite !commands_app, C1, C2, C3|].
  split; [now rewrite !inputs_app, IA, IB, IC|].
  split; [now rewrite !inputs_app, !map_app, A1, A2, A3|].
  assert (Hin : forall q a,
             In (EvInput q a) ((t1 ++ t2 ++ t3) ++ tA ++ tB ++ tC)%list <->
             In (q, a) (inputs t1) \/ In (q, a) (inputs t2) \/ In (q, a) (inputs t3)).
  { intros q a. rewrite in_inputs, !inputs_app, IA, IB, IC, !app_nil_r, !in_app_iff.
    tauto. }
  assert (D12 : update_prompt ++ " [Y/n] " <> clone_prompt ++ " [Y/n] ") by discriminate.
  assert (D13 : update_prompt ++ " [Y/n] " <> fetch_prompt ++ " [Y/n] ") by discriminate.
  assert (D23 : clone_prompt ++ " [Y/n] " <> fetch_prompt ++ " [Y/n] ") by discriminate.
  rewrite <- ?app_assoc in Hin. rewrite <- ?app_assoc.
  assert (Hu : ua = true <-> confirmed update_prompt (t1 ++ t2 ++ t3 ++ tA ++ tB ++ tC)%list);
    [split|].
  3: assert (Hc : ca = true <-> confirmed clone_prompt (t1 ++ t2 ++ t3 ++ tA ++ tB ++ tC)%list);
    [split|].
  5: assert (Hf : fa = true <-> confirmed fetch_prompt (t1 ++ t2 ++ t3 ++ tA ++ tB ++ tC)%list);
    [split|].
  7: now repeat (split; [assumption|]).
  - intros E. destruct (Y1 E) as (l & Hl & Hy). exists l. split; [|exact Hy].
    apply Hin. now left.
  - intros (l & Hl & Hy). apply Hin in Hl. destruct Hl as [Hl|[Hl|Hl]].
    + apply Q1 in Hl. destruct Hl as (_ & l' & E & ->). inv E. exact Hy.
    + apply Q2 in Hl. destruct Hl as (E & _). congruence.
    + apply Q3 in Hl. destruct Hl as (E & _). congruence.
  - intros E. destruct (Y2 E) as (l & Hl & Hy). exists l. split; [|exact Hy].
    apply Hin. right. now left.
  - intros (l & Hl & Hy). apply Hin in Hl. destruct Hl as [Hl|[Hl|Hl]].
    + apply Q1 in Hl. destruct Hl as (E & _). congruence.
    + apply Q2 in Hl. destruct Hl as (_ & l' & E & ->). inv E. exact Hy.
    + apply Q3 in Hl. destruct Hl as (E & _). congruence.
  - intros E. destruct (Y3 E) as (l & Hl & Hy). exists l. split; [|exact Hy].
    apply Hin. right. now right.
  - intros (l & Hl & Hy). apply Hin in Hl. destruct Hl as [Hl|[Hl|Hl]].
    + apply Q1 in Hl. destruct Hl as (E & _). congruence.
    + apply Q2 in Hl. destruct Hl as (E & _). congruence.
    + apply Q3 in Hl. destruct Hl as (_ & l' & E & ->). inv E. exact Hy.
Qed.

(** A run that crashes does so at a prompt, by the end of the input. *)
Lemma orchestrator_crash (checked : list RepoRecord) t e :
  Runs (do_updates_and_clones checked) t (Crashed e) ->
  e = "EOFError" /\ commands t = [].
Proof.
  intros H. unfold do_updates_and_clones in H.
  apply Runs_bind_inv in H.
  destruct H as [(e1 & H1 & E)|(ua & t1 & u1 & H1 & H & ->)];
    apply confirm_flag in H1; destruct H1 as (C1 & _ & R1);
    [inv E; auto|].
  apply Runs_bind_inv in H.
  destruct H as [(e2 & H2 & E)|(ca & t2 & u2 & H2 & H & ->)];
    apply confirm_flag in H2; destruct H2 as (C2 & _ & R2);
    [inv E; split; [first [reflexivity|assumption] | now rewrite commands_app, C1, C2]|].
  apply Runs_bind_inv in H.
  destruct H as [(e3 & H3 & E)|(fa & t3 & u3 & H3 & H & ->)];
    apply confirm_flag in H3; destruct H3 as (C3 & _ & R3);
    [inv E; split; [first [reflexivity|assumption] | now rewrite !commands_app, C1, C2, C3]|].
  apply Runs_bind_inv in H.
  destruct H as [(e4 & HA & E)|([] & tA & u4 & HA & H & ->)];
    [apply (loop_inputs _ _ (update_body_inputs ua)) in HA; destruct HA; discriminate|].
  apply Runs_bind_inv in H.
  destruct H as [(e5 & HB & E)|([] & tB & tC & HB & HC & ->)];
    [apply (loop_inputs _ _ (clone_body_inputs ca)) in HB; destruct HB; discriminate|].
  apply (loop_inputs _ _ (fetch_body_inputs fa)) in HC. destruct HC. discriminate.
Qed.

(** X15.  All questions come before the first command: a run that
    returns is a first part that runs nothing and asks one question for
    each group that is not empty, in the order catch-up, acquisition,
    read-only refresh, and a second part that asks nothing.  A run that the
    end of the input stops, at one of these questions, has run nothing. *)
Theorem confirmations_come_first (checked : list RepoRecord) t res :
  Runs (do_updates_and_clones checked) t res ->
  match res with
  | Returned _ =>
      exists tp tc,
        t = (tp ++ tc)%list /\ commands tp = [] /\ inputs tc = [] /\
        map fst (inputs tp) = (asked (need_update checked) update_prompt
                               ++ asked (need_clone checked) clone_prompt
                               ++ asked (need_fetch checked) fetch_prompt)%list
  | Crashed e => e = "EOFError" -> commands t = []
  end.
Proof.
  intros H. destruct res as [[]|e].
  - apply orchestrator_shape in H.
    destruct H as (ua & ca & fa & tp & tA & tB & tC & -> & Hc & Hi & Ha & _).
    exists tp, (tA ++ tB ++ tC)%list. auto.
  - intros _. now apply orchestrator_crash in H.
Qed.

Lemma confirmations_come_first_witness :
  exists tp tc,
    reconcile_trace_in dirty_after_fetch "OBSOLETE" = (tp ++ tc)%list /\
    commands tp = [] /\ inputs tc = [] /\
    map fst (inputs tp)
    = (asked (need_update [proj_record "OBSOLETE"]) update_prompt
       ++ asked (need_clone [proj_record "OBSOLETE"]) clone_prompt
       ++ asked (need_fetch [proj_record "OBSOLETE"]) fetch_prompt)%list.
Proof.
  exact (confirmations_come_first [proj_record "OBSOLETE"] _ (Returned tt)
           (interp_Runs (world_of dirty_after_fetch) _ tt)).
Defined.

Lemma idle_loop_commands {R : Type} (body : R -> Prog unit) (l : list R) t r :
  (forall x, body x = Ret tt) ->
  Runs (for_each l body) t r -> commands t = [].
Proof.
  intros Hb. revert t r. induction l as [|x l IH]; intros t r H; cbn [for_each] in H.
  - inv H. reflexivity.
  - rewrite Hb in H. cbn [bind] in H. now apply IH in H.
Qed.

(** X16.  Nothing is run without a yes: in a run where no line read is
    taken as a yes, no command is run at all. *)
Theorem nothing_without_a_yes (checked : list RepoRecord) t res :
  Runs (do_updates_and_clones checked) t res ->
  (forall q l, In (EvInput q (Some l)) t -> yes_no_reply l true = false) ->
  commands t = [].
Proof.
  intros H Hno. destruct res as [[]|e]; [|now apply orchestrator_crash in H].
  apply orchestrator_shape in H.
  destruct H as (ua & ca & fa & tp & tA & tB & tC & -> & Hc & _ & _ & Hu & Hcl & Hf
                 & HA & HB & HC).
  assert (Hnot : forall prompt, ~ confirmed prompt (tp ++ tA ++ tB ++ tC)%list).
  { intros prompt (l & Hl & Hy). apply Hno in Hl. congruence. }
  assert (ua = false) as -> by (destruct ua; [exfalso; apply (Hnot update_prompt), Hu; reflexivity | reflexivity]).
  assert (ca = false) as -> by (destruct ca; [exfalso; apply (Hnot clone_prompt), Hcl; reflexivity | reflexivity]).
  assert (fa = false) as -> by (destruct fa; [exfalso; apply (Hnot fetch_prompt), Hf; reflexivity | reflexivity]).
  rewrite !commands_app, Hc.
  rewrite (idle_loop_commands _ _ _ _ (fun x => eq_refl) HA).
  rewrite (idle_loop_commands _ _ _ _ (fun x => eq_refl) HB).
  rewrite (idle_loop_commands _ _ _ _ (fun x => eq_refl) HC).
  reflexivity.
Qed.

Lemma nothing_without_a_yes_witness :
  commands (reconcile_trace_in operator_declines "OUT OF DATE") = [].
Proof.
  apply (nothing_without_a_yes [proj_record "OUT OF DATE"] _ (Returned tt)).
  - exact (interp_Runs (world_of operator_declines) _ tt).
  - intros q l H. vm_compute in H.
    repeat match type of H with
           | _ \/ _ => destruct H as [H|H]
           end; try contradiction; try discriminate H.
    inv H. reflexivity.
Defined.

(** ** Where the pulls stand *)

Lemma pulls_guarded_app (l : list RepoRecord) (t1 t2 : list Event) :
  pulls_guarded l t1 -> pulls_guarded l t2 -> pulls_guarded l (t1 ++ t2).
Proof.
  intros H1 H2 pre cwd tmo o post E.
  apply app_eq_app in E. destruct E as (m & [[E1 E2]|[E1 E2]]).
  - destruct m as [|ev m]; cbn [app] in E2.
    + symmetry in E2.
      destruct (H2 [] cwd tmo o post E2) as (Hr & Ht & head & f & s & u & Ep & Hc).
      destruct head; discriminate Ep.
    + injection E2 as <- E2. subst post.
      exact (H1 pre cwd tmo o m E1).
  - destruct (H2 m cwd tmo o post E2) as (Hr & Ht & head & f & s & u & Ep & Hc).
    split; [exact Hr|]. split; [exact Ht|].
    exists (t1 ++ head)%list, f, s, u. split; [|exact Hc].
    rewrite <- app_assoc, <- Ep. exact E1.
Qed.

Lemma commands_split (pre post : list Event) cmd cwd tmo o :
  In cmd (commands (pre ++ EvRun cmd cwd tmo o :: post)).
Proof.
  rewrite commands_app. apply in_or_app. right. now left.
Qed.

Lemma pulls_guarded_no_pull (l : list RepoRecord) (t : list Event) :
  ~ In git_pull (commands t) -> pulls_guarded l t.
Proof.
  intros Hn pre cwd tmo o post ->. exfalso. apply Hn, commands_split.
Qed.

Lemma pulls_guarded_incl (l l' : list RepoRecord) (t : list Event) :
  incl l l' -> pulls_guarded l t -> pulls_guarded l' t.
Proof.
  intros Hi H pre cwd tmo o post E.
  destruct (H pre cwd tmo o post E) as ((r & Hr & Hc) & Ht & Hg).
  split; [exists r; auto|]. split; assumption.
Qed.

Lemma pulls_guarded_concat (l : list RepoRecord) (ts : list (list Event)) :
  Forall2 (fun x tx => pulls_guarded [x] tx) l ts ->
  pulls_guarded l (List.concat ts).
Proof.
  induction 1 as [|x tx l ts Hx _ IH]; cbn [List.concat].
  - apply pulls_guarded_no_pull. intros [].
  - apply pulls_guarded_app.
    + eapply pulls_guarded_incl; [|exact Hx]. intros y [->|[]]. now left.
    + eapply pulls_guarded_incl; [|exact IH]. intros y Hy. now right.
Qed.

(** Finds the place of a pull in an explicit trace. *)
Ltac locate_pull E :=
  match type of E with
  | [] = (?pre ++ _)%list => destruct pre; discriminate E
  | (_ :: _) = (?pre ++ _)%list =>
      let ev := fresh "ev" in
      destruct pre as [|ev pre]; cbn [app] in E;
      [ try discriminate E
      | injection E as <- E; locate_pull E ]
  end.

Lemma update_body_pulls (ua : bool) (x : RepoRecord) t r :
  Runs (update_body ua x) t r -> pulls_guarded [x] t.
Proof.
  intros H. unfold update_body, ensure_submodules in H.
  runs_inv; tests_to_facts; intros pre cwd tmo o' post E; locate_pull E.
  all: injection E as <- <- <- <-.
  all: split; [exists x; split; [now left | reflexivity]|].
  all: split; [reflexivity|].
  all: eexists [_], _, _, _; split; [reflexivity|].
  all: unfold reports_dirty, lists_unmerged; auto.
Qed.

Ltac no_pull :=
  cbn [commands];
  repeat (apply Forall_cons; [discriminate|]); apply Forall_nil.

Lemma clone_body_no_pull (ca : bool) (x : RepoRecord) t r :
  Runs (clone_body ca x) t r -> Forall (fun c => c <> git_pull) (commands t).
Proof.
  intros H. unfold clone_body, ensure_submodules in H. runs_inv; no_pull.
Qed.

Lemma fetch_body_no_pull (fa : bool) (x : RepoRecord) t r :
  Runs (fetch_body fa x) t r -> Forall (fun c => c <> git_pull) (commands t).
Proof.
  intros H. unfold fetch_body, ensure_submodules in H. runs_inv; no_pull.
Qed.

Lemma Forall_no_pull (t : list Event) :
  Forall (fun c => c <> git_pull) (commands t) -> ~ In git_pull (commands t).
Proof.
  intros HF Hin. rewrite Forall_forall in HF. now apply (HF _ Hin).
Qed.

Lemma Forall2_impl_left {A B : Type} (P Q : A -> B -> Prop) (l : list A)
    (ts : list B) :
  (forall x y, P x y -> Q x y) -> Forall2 P l ts -> Forall2 Q l ts.
Proof. intros HPQ. induction 1; constructor; auto. Qed.

(** X17.  A pull is never run blind.  Wherever a [git pull] stands in a
    run of the orchestrator, the operator said yes to the catch-up prompt,
    the pull runs in the directory of a listed record whose status is OUT
    OF DATE or OBSOLETE, with the standard time limit, and the three events
    just before it are, in that same directory, a fetch that ended with
    exit code 0, a status query with empty output and an unmerged-path
    query with empty output. *)
Theorem pull_only_after_clean_recheck (checked : list RepoRecord) t res
    pre cwd tmo o post :
  Runs (do_updates_and_clones checked) t res ->
  t = (pre ++ EvRun git_pull cwd tmo o :: post)%list ->
  confirmed update_prompt t /\
  (exists r, In r checked /\ In (status r) out_of_date_statuses /\
             cwd = Some (str_path (path r))) /\
  tmo = default_timeout /\
  clean_recheck cwd pre.
Proof.
  intros H E.
  destruct res as [[]|e].
  2:{ apply orchestrator_crash in H. destruct H as [_ Hc].
      pose proof (commands_split pre post git_pull cwd tmo o) as Hin.
      rewrite <- E, Hc in Hin. destruct Hin. }
  apply orchestrator_shape in H.
  destruct H as (ua & ca & fa & tp & tA & tB & tC & Et & Hc & _ & _ & Hu & _ & _
                 & HA & HB & HC).
  assert (Hg : pulls_guarded (need_update checked) t).
  { rewrite Et. repeat apply pulls_guarded_app.
    - apply pulls_guarded_no_pull. rewrite Hc. intros [].
    - apply for_each_inv in HA; [|apply update_body_returns].
      destruct HA as [_ (ts & -> & HF)].
      apply pulls_guarded_concat.
      eapply Forall2_impl_left; [|exact HF].
      intros x tx Hx. exact (update_body_pulls _ _ _ _ Hx).
    - apply pulls_guarded_no_pull, Forall_no_pull.
      exact (loop_commands _ _ _ (clone_body_no_pull ca) _ _ HB).
    - apply pulls_guarded_no_pull, Forall_no_pull.
      exact (loop_commands _ _ _ (fetch_body_no_pull fa) _ _ HC). }
  destruct (Hg pre cwd tmo o post E) as ((r & Hr & Hcwd) & Ht & Hre).
  apply in_members in Hr. destruct Hr as [Hr Hst].
  split; [|split; [exists r; auto | split; assumption]].
  apply Hu. destruct ua; [reflexivity|]. exfalso.
  pose proof (commands_split pre post git_pull cwd tmo o) as Hin.
  rewrite <- E, Et, !commands_app, Hc in Hin.
  rewrite (idle_loop_commands _ _ _ _ (fun x => eq_refl) HA) in Hin.
  cbn [app] in Hin. apply in_app_or in Hin. destruct Hin as [Hin|Hin].
  - exact (Forall_no_pull _ (loop_commands _ _ _ (clone_body_no_pull ca) _ _ HB) Hin).
  - exact (Forall_no_pull _ (loop_commands _ _ _ (fetch_body_no_pull fa) _ _ HC) Hin).
Qed.

Lemma pull_only_after_clean_recheck_witness :
  let t := reconcile_trace_in thirty_days_behind "OUT OF DATE" in
  confirmed update_prompt t /\
  (exists r, In r [proj_record "OUT OF DATE"] /\
             In (status r) out_of_date_statuses /\
             Some (str_path proj) = Some (str_path (path r))) /\
  default_timeout = default_timeout /\
  clean_recheck (Some (str_path proj)) (firstn 7 t).
Proof.
  exact (pull_only_after_clean_recheck [proj_record "OUT OF DATE"]
           (reconcile_trace_in thirty_days_behind "OUT OF DATE") (Returned tt)
           (firstn 7 (reconcile_trace_in thirty_days_behind "OUT OF DATE"))
           (Some (str_path proj)) default_timeout (ok "")
           (skipn 8 (reconcile_trace_in thirty_days_behind "OUT OF DATE"))
           (interp_Runs (world_of thirty_days_behind) _ tt) eq_refl).
Defined.

(** ** Records the orchestrator leaves alone *)

Lemma in_need_clone (checked : list RepoRecord) (x : RepoRecord) :
  In x (need_clone checked) <-> In x checked /\ status x = not_present_status.
Proof.
  unfold need_clone. rewrite grouped_get_spec, filter_In, String.eqb_eq.
  reflexivity.
Qed.

Lemma need_clone_members (checked : list RepoRecord) (x : RepoRecord) :
  In x (need_clone checked) ->
  In x (members (get_grouped_repos checked) [not_present_status]).
Proof.
  intros H. apply in_need_clone in H. apply in_members.
  destruct H as [H E]. split; [exact H | now left].
Qed.

(** X18.  A record whose status is none of the six the orchestrator acts
    on (a SYNCHRONIZED one, for instance) is left alone: in a list where
    each record has its own directory, no command is run in its directory
    and nothing is cloned into it, whatever the operator answers. *)
Theorem other_statuses_untouched (checked : list RepoRecord) t res
    (r : RepoRecord) :
  Runs (do_updates_and_clones checked) t res ->
  NoDup (map (fun x => str_path (path x)) checked) ->
  In r checked ->
  ~ In (status r) actionable_statuses ->
  commands_in (str_path (path r)) t = [].
Proof.
  intros H Hnd Hr Hst.
  destruct res as [[]|e];
    [|apply orchestrator_crash in H; now apply commands_in_none].
  apply orchestrator_shape in H.
  destruct H as (ua & ca & fa & tp & tA & tB & tC & -> & Hc & _ & _ & _ & _ & _
                 & HA & HB & HC).
  assert (Hother : forall sts x,
             incl sts actionable_statuses ->
             In x (members (get_grouped_repos checked) sts) ->
             str_path (path r) <> str_path (path x)).
  { intros sts x Hi Hx E. apply in_members in Hx. destruct Hx as [Hx Hs].
    pose proof (NoDup_map_injective _ _ _ _ Hnd Hr Hx E) as ->.
    apply Hst, Hi, Hs. }
  assert (EA : commands_in (str_path (path r)) tA = []).
  { eapply loop_elsewhere; [|exact HA].
    intros x t r0 Hx Hrun. split; [exact (update_body_returns _ _ _ _ Hrun)|].
    apply (update_body_elsewhere _ _ _ _ _ Hrun).
    apply (Hother out_of_date_statuses); [|exact Hx].
    intros s Hs. apply in_or_app. now left. }
  assert (EB : commands_in (str_path (path r)) tB = []).
  { eapply loop_elsewhere; [|exact HB].
    intros x t r0 Hx Hrun. split; [exact (clone_body_returns _ _ _ _ Hrun)|].
    apply (clone_body_elsewhere _ _ _ _ _ Hrun).
    apply (Hother [not_present_status]); [|exact (need_clone_members _ _ Hx)].
    intros s Hs. apply in_or_app. right. apply in_or_app. now left. }
  assert (EC : commands_in (str_path (path r)) tC = []).
  { eapply loop_elsewhere; [|exact HC].
    intros x t r0 Hx Hrun. split; [exact (fetch_body_returns _ _ _ _ Hrun)|].
    apply (fetch_body_commands _ _ _ _ _ Hrun).
    apply (Hother always_fetch_statuses); [|exact Hx].
    intros s Hs. apply in_or_app. right. apply in_or_app. now right. }
  now rewrite !commands_in_app, (commands_in_none _ _ Hc), EA, EB, EC.
Qed.

Lemma other_statuses_untouched_witness :
  commands_in (str_path proj)
    (trace_in (world_of in_step)
       (do_updates_and_clones [proj_record "SYNCHRONIZED"]) tt) = [].
Proof.
  apply (other_statuses_untouched [proj_record "SYNCHRONIZED"] _
           (result_in (world_of in_step)
              (do_updates_and_clones [proj_record "SYNCHRONIZED"]) tt)
           (proj_record "SYNCHRONIZED")).
  - apply interp_Runs.
  - repeat constructor. intros [].
  - now left.
  - intros H. vm_compute in H.
    repeat match type of H with
           | _ \/ _ => destruct H as [H|H]
           end; try contradiction; discriminate H.
Defined.

(** ** The acquisition and the read-only refresh of one record *)







(** ** Every command belongs to a record and to its phase *)

Lemma targets_here (dir : string) (cmd : list string) :
  targets dir cmd (Some dir) = true.
Proof. apply String.eqb_refl. Qed.

Lemma targets_clone (url dir : string) :
  targets dir (git_clone url dir) None = true.
Proof. cbn. apply String.eqb_refl. Qed.

Ltac phase_events :=
  repeat (apply Forall_cons;
          [ cbn [in_phase];
            first [ exact I
                  | split; [reflexivity|];
                    split; [first [apply targets_here | apply targets_clone]|];
                    solve [in_trace] ]
          | ]);
  apply Forall_nil.

Lemma update_body_events (ua : bool) (x : RepoRecord) t r :
  Runs (update_body ua x) t r -> Forall (in_phase catch_up_inventory x) t.
Proof.
  intros H. unfold update_body, ensure_submodules in H.
  runs_inv; unfold catch_up_inventory; phase_events.
Qed.

Lemma clone_body_events (ca : bool) (x : RepoRecord) t r :
  Runs (clone_body ca x) t r -> Forall (in_phase (acquisition_inventory x) x) t.
Proof.
  intros H. unfold clone_body, ensure_submodules in H.
  rewrite parent_then_name_id in H.
  runs_inv; unfold acquisition_inventory; phase_events.
Qed.

Lemma fetch_body_events (fa : bool) (x : RepoRecord) t r :
  Runs (fetch_body fa x) t r -> Forall (in_phase refresh_inventory x) t.
Proof.
  intros H. unfold fetch_body, ensure_submodules in H.
  runs_inv; unfold refresh_inventory; phase_events.
Qed.

Lemma loop_events {R : Type} (body : R -> Prog unit) (Q : R -> Event -> Prop)
    (l : list R) :
  (forall x t r, Runs (body x) t r -> Forall (Q x) t) ->
  forall t r, Runs (for_each l body) t r ->
    Forall (fun ev => exists x, In x l /\ Q x ev) t.
Proof.
  intros Hb. induction l as [|x l IH]; intros t r H; cbn [for_each] in H.
  - inv H. constructor.
  - assert (Hx : forall u ru, Runs (body x) u ru ->
                   Forall (fun ev => exists y, In y (x :: l) /\ Q y ev) u).
    { intros u ru Hu. apply Hb in Hu. revert Hu. apply Forall_impl.
      intros ev Hq. exists x. split; [now left | exact Hq]. }
    apply Runs_bind_inv in H.
    destruct H as [(e & He & ->)|(a & t1 & t2 & H1 & H2 & ->)].
    + exact (Hx _ _ He).
    + apply Forall_app. split; [exact (Hx _ _ H1)|].
      apply IH in H2. revert H2. apply Forall_impl.
      intros ev (y & Hy & Hq). exists y. split; [now right | exact Hq].
Qed.

Lemma in_commands (t : list Event) cmd cwd tmo o :
  In (EvRun cmd cwd tmo o) t -> In cmd (commands t).
Proof.
  intros H. apply in_split in H. destruct H as (pre & post & ->).
  apply commands_split.
Qed.

(** X21.  Every command of a run of the orchestrator belongs to a listed
    record and to the phase of its status.  It has the standard time limit
    and works on the directory of a listed record: a record that is OUT OF
    DATE or OBSOLETE, and then the command is fetch, status, ls-files, pull
    or a submodule init or update; or a record that is NOT PRESENT, and
    then it is the clone of its remote into its path or a submodule init
    or update; or a record that is MODIFIED, CONFLICT or DESYNCHRONIZED,
    and then it is fetch or a submodule init or update. *)
Theorem every_command_has_its_record (checked : list RepoRecord) t res
    cmd cwd tmo o :
  Runs (do_updates_and_clones checked) t res ->
  In (EvRun cmd cwd tmo o) t ->
  tmo = default_timeout /\
  exists r,
    In r checked /\
    targets (str_path (path r)) cmd cwd = true /\
    ((In (status r) out_of_date_statuses /\ In cmd catch_up_inventory) \/
     (status r = not_present_status /\ In cmd (acquisition_inventory r)) \/
     (In (status r) always_fetch_statuses /\ In cmd refresh_inventory)).
Proof.
  intros H Hin.
  destruct res as [[]|e].
  2:{ apply orchestrator_crash in H. destruct H as [_ Hc].
      apply in_commands in Hin. rewrite Hc in Hin. destruct Hin. }
  apply orchestrator_shape in H.
  destruct H as (ua & ca & fa & tp & tA & tB & tC & -> & Hc & _ & _ & _ & _ & _
                 & HA & HB & HC).
  apply (loop_events _ _ _ (update_body_events ua)) in HA.
  apply (loop_events _ _ _ (clone_body_events ca)) in HB.
  apply (loop_events _ _ _ (fetch_body_events fa)) in HC.
  rewrite Forall_forall in HA, HB, HC.
  rewrite !in_app_iff in Hin. destruct Hin as [Hin|[Hin|[Hin|Hin]]].
  - apply in_commands in Hin. rewrite Hc in Hin. destruct Hin.
  - destruct (HA _ Hin) as (x & Hx & Ht & Htg & Hcmd).
    apply in_members in Hx. destruct Hx as [Hx Hs].
    split; [exact Ht|]. exists x.
    split; [exact Hx|]. split; [exact Htg|]. left. split; assumption.
  - destruct (HB _ Hin) as (x & Hx & Ht & Htg & Hcmd).
    apply in_need_clone in Hx. destruct Hx as [Hx Hs].
    split; [exact Ht|]. exists x.
    split; [exact Hx|]. split; [exact Htg|]. right. left. split; assumption.
  - destruct (HC _ Hin) as (x & Hx & Ht & Htg & Hcmd).
    apply in_members in Hx. destruct Hx as [Hx Hs].
    split; [exact Ht|]. exists x.
    split; [exact Hx|]. split; [exact Htg|]. right. right. split; assumption.
Qed.

Lemma every_command_has_its_record_witness :
  default_timeout = default_timeout /\
  exists r,
    In r [proj_record "NOT PRESENT"] /\
    targets (str_path (path r)) git_submodule_init (Some (str_path proj)) = true /\
    ((In (status r) out_of_date_statuses /\
      In git_submodule_init catch_up_inventory) \/
     (status r = not_present_status /\
      In git_submodule_init (acquisition_inventory r)) \/
     (In (status r) always_fetch_statuses /\
      In git_submodule_init refresh_inventory)).
Proof.
  apply (every_command_has_its_record [proj_record "NOT PRESENT"]
           (reconcile_trace_in not_yet_cloned "NOT PRESENT") (Returned tt)
           git_submodule_init (Some (str_path proj)) default_timeout (ok "")).
  - exact (interp_Runs (world_of not_yet_cloned) _ tt).
  - vm_compute. tauto.
Defined.

(** ** Cutting a string at a character *)

Lemma append_assoc (a b c : string) : (a ++ b) ++ c = a ++ b ++ c.
Proof. induction a as [|d a IH]; cbn; [reflexivity | now rewrite IH]. Qed.

Lemma has_char_cons (c d : ascii) (s : string) :
  has_char c (String d s) = Ascii.eqb d c || has_char c s.
Proof.
  unfold has_char. cbn [str_index]. destruct (Ascii.eqb d c); [reflexivity|].
  destruct (str_index c s); reflexivity.
Qed.

Lemma str_index_app_absent (c : ascii) (a b : string) :
  has_char c a = false ->
  str_index c (a ++ b) = option_map (Nat.add (String.length a)) (str_index c b).
Proof.
  induction a as [|d a IH]; intros H.
  - cbn. now destruct (str_index c b).
  - rewrite has_char_cons in H. apply orb_false_iff in H. destruct H as [Hd Ha].
    cbn [append str_index String.length]. rewrite Hd, (IH Ha).
    now destruct (str_index c b).
Qed.

Lemma str_index_first (c : ascii) (a b : string) :
  exists k, str_index c (a ++ String c b) = Some k /\ (k <= String.length a)%nat.
Proof.
  induction a as [|d a (k & E & Hk)]; cbn [append str_index String.length].
  - rewrite Ascii.eqb_refl. exists O. split; [reflexivity | lia].
  - destruct (Ascii.eqb d c).
    + exists O. split; [reflexivity | lia].
    + rewrite E. exists (S k). split; [reflexivity | lia].
Qed.

Lemma split_once_app (c : ascii) (a b : string) :
  has_char c a = false -> split_once c (a ++ String c b) = [a; b].
Proof.
  induction a as [|d a IH]; intros H; cbn [append split_once].
  - now rewrite Ascii.eqb_refl.
  - rewrite has_char_cons in H. apply orb_false_iff in H. destruct H as [Hd Ha].
    now rewrite Hd, (IH Ha).
Qed.

Lemma rsplit_once_absent (c : ascii) (s : string) :
  has_char c s = false -> rsplit_once c s = [s].
Proof.
  induction s as [|d s IH]; intros H; [reflexivity|].
  rewrite has_char_cons in H. apply orb_false_iff in H. destruct H as [Hd Hs].
  cbn [rsplit_once]. now rewrite (IH Hs), Hd.
Qed.

Lemma rsplit_once_app (c : ascii) (a b : string) :
  has_char c b = false -> rsplit_once c (a ++ String c b) = [a; b].
Proof.
  intros H. induction a as [|d a IH]; cbn [append rsplit_once].
  - now rewrite (rsplit_once_absent _ _ H), Ascii.eqb_refl.
  - now rewrite IH.
Qed.

Lemma split_once_spec (c : ascii) (s : string) :
  has_char c s = true ->
  exists a b, split_once c s = [a; b] /\ s = a ++ String c b /\
              has_char c a = false.
Proof.
  induction s as [|d s IH]; intros H; [discriminate|].
  rewrite has_char_cons in H. cbn [split_once].
  destruct (Ascii.eqb d c) eqn:Ed.
  - apply Ascii.eqb_eq in Ed. subst d. exists "", s. auto.
  - destruct (IH H) as (a & b & E & -> & Ha). rewrite E.
    exists (String d a), b. split; [reflexivity|]. split; [reflexivity|].
    rewrite has_char_cons, Ed, Ha. reflexivity.
Qed.

Lemma rsplit_once_spec (c : ascii) (s : string) :
  has_char c s = true ->
  exists a b, rsplit_once c s = [a; b] /\ s = a ++ String c b /\
              has_char c b = false.
Proof.
  induction s as [|d s IH]; intros H; [discriminate|].
  rewrite has_char_cons in H. cbn [rsplit_once].
  destruct (has_char c s) eqn:Hs.
  - destruct (IH eq_refl) as (a & b & E & -> & Hb). rewrite E.
    exists (String d a), b. auto.
  - rewrite (rsplit_once_absent _ _ Hs). rewrite orb_false_r in H. rewrite H.
    apply Ascii.eqb_eq in H. subst d. exists "", s. auto.
Qed.

Lemma truthy_nonempty (s : string) : s <> "" -> truthy s = true.
Proof. intros H. now apply truthy_true. Qed.

(** ** The target argument *)

(** X22.  A target written [org:user@alias] is read back as its three
    parts, whenever the organisation holds neither [:] nor [@], the alias
    holds no [@], and the user and the alias are not empty.  The user may
    hold any character, and the organisation may be empty. *)
Theorem parse_target_with_org (org user alias : string) :
  has_char ":" org = false -> has_char "@" org = false ->
  has_char "@" alias = false ->
  user <> "" -> alias <> "" ->
  parse_org_user_alias (org ++ ":" ++ user ++ "@" ++ alias)
  = Ret (Some org, user, alias).
Proof.
  intros Hc Ha Hal Hu Hn.
  change (org ++ ":" ++ user ++ "@" ++ alias)
    with (org ++ String ":" (user ++ String "@" alias)).
  unfold parse_org_user_alias.
  assert (Ep : org_prefixed (org ++ String ":" (user ++ String "@" alias)) = true).
  { unfold org_prefixed, has_char.
    rewrite (str_index_app_absent ":" _ _ Hc), (str_index_app_absent "@" _ _ Ha).
    cbn [str_index]. rewrite Ascii.eqb_refl.
    change (Ascii.eqb ":" "@") with false. cbv iota.
    destruct (str_index_first "@" user alias) as (k & -> & _).
    cbn [option_map andb]. apply Nat.ltb_lt. lia. }
  rewrite Ep.
  replace (org ++ String ":" (user ++ String "@" alias))
    with ((org ++ String ":" user) ++ String "@" alias)
    by (rewrite append_assoc; reflexivity).
  rewrite (rsplit_once_app _ _ _ Hal). cbn [unpack2].
  rewrite (split_once_app _ _ _ Hc). cbn [unpack2].
  now rewrite (truthy_nonempty _ Hu), (truthy_nonempty _ Hn).
Qed.

Lemma parse_target_with_org_witness :
  parse_org_user_alias "Acme:alice@gh" = Ret (Some "Acme", "alice", "gh").
Proof.
  apply (parse_target_with_org "Acme" "alice" "gh");
    first [reflexivity | discriminate].
Defined.

(** X23.  A target written [user@alias] is read back as its two parts,
    with no organisation, whenever the user holds neither [@] nor [:] and
    the user and the alias are not empty.  The alias may hold any
    character. *)
Theorem parse_target_user_only (user alias : string) :
  has_char "@" user = false -> has_char ":" user = false ->
  user <> "" -> alias <> "" ->
  parse_org_user_alias (user ++ "@" ++ alias) = Ret (None, user, alias).
Proof.
  intros Ha Hc Hu Hn.
  change (user ++ "@" ++ alias) with (user ++ String "@" alias).
  unfold parse_org_user_alias.
  assert (Ep : org_prefixed (user ++ String "@" alias) = false).
  { unfold org_prefixed, has_char.
    rewrite (str_index_app_absent ":" _ _ Hc), (str_index_app_absent "@" _ _ Ha).
    cbn [str_index]. rewrite Ascii.eqb_refl.
    change (Ascii.eqb "@" ":") with false. cbv iota.
    destruct (str_index ":" alias) as [k|]; cbn [option_map andb]; [|reflexivity].
    apply Nat.ltb_ge. lia. }
  rewrite Ep.
  assert (Eh : has_char "@" (user ++ String "@" alias) = true).
  { unfold has_char. now destruct (str_index_first "@" user alias) as (k & -> & _). }
  rewrite Eh, (split_once_app _ _ _ Ha). cbn [unpack2].
  now rewrite (truthy_nonempty _ Hu), (truthy_nonempty _ Hn).
Qed.

Lemma parse_target_user_only_witness :
  parse_org_user_alias "alice@gh" = Ret (None, "alice", "gh").
Proof.
  apply (parse_target_user_only "alice" "gh");
    first [reflexivity | discriminate].
Defined.

(** X24.  Whatever the argument, the parser either returns three parts
    that spell the argument again, with a user and an alias that are not
    empty, or prints a FATAL line and exits; the unpacking of the cut
    strings never fails.  An argument without [@] always ends in the
    FATAL line about the expected form. *)
Theorem parse_org_user_alias_sound (arg : string) :
  ((exists org user alias,
      parse_org_user_alias arg = Ret (org, user, alias) /\
      user <> "" /\ alias <> "" /\
      arg = match org with Some o => o ++ ":" | None => "" end
            ++ user ++ "@" ++ alias) \/
   (exists msg, parse_org_user_alias arg = fatal msg)) /\
  (has_char "@" arg = false ->
   parse_org_user_alias arg
   = fatal "Target must be in the form <user>@<alias> or <org>:<user>@<alias>").
Proof.
  assert (Hfin : forall org user alias,
            arg = match org with Some o => o ++ ":" | None => "" end
                  ++ user ++ "@" ++ alias ->
            let p := if negb (truthy user) || negb (truthy alias)
                     then fatal "Parsing failed: user or alias missing"
                     else Ret (org, user, alias) in
            (exists org' user' alias',
                p = Ret (org', user', alias') /\
                user' <> "" /\ alias' <> "" /\
                arg = match org' with Some o => o ++ ":" | None => "" end
                      ++ user' ++ "@" ++ alias') \/
            (exists msg, p = @fatal (option string * string * string) msg)).
  { intros org user alias E p. subst p.
    destruct (truthy user) eqn:Tu; [|right; eexists; reflexivity].
    destruct (truthy alias) eqn:Ta; [|right; eexists; reflexivity].
    left. exists org, user, alias. cbn [negb orb].
    split; [reflexivity|]. split; [now apply truthy_true|].
    split; [now apply truthy_true | exact E]. }
  unfold parse_org_user_alias. split.
  - destruct (org_prefixed arg) eqn:Ep.
    + unfold org_prefixed in Ep.
      apply andb_true_iff in Ep. destruct Ep as [Ep Hlt].
      apply andb_true_iff in Ep. destruct Ep as [Hc Ha].
      destruct (rsplit_once_spec "@" arg Ha) as (a & b & E & Earg & Hb).
      rewrite E. cbn [unpack2].
      destruct (has_char ":" a) eqn:Hca.
      * destruct (split_once_spec ":" a Hca) as (o & u & E' & Ea & _).
        rewrite E'. cbn [unpack2]. apply (Hfin (Some o) u b).
        rewrite Earg, Ea. rewrite !append_assoc. reflexivity.
      * exfalso. rewrite Earg in Hlt.
        rewrite (str_index_app_absent ":" _ _ Hca) in Hlt.
        destruct (str_index_first "@" a b) as (k & Ek & Hk). rewrite Ek in Hlt.
        cbn [str_index] in Hlt. change (Ascii.eqb "@" ":") with false in Hlt.
        cbv iota in Hlt.
        destruct (str_index ":" b) as [i|]; cbn [option_map] in Hlt;
          [|discriminate].
        apply Nat.ltb_lt in Hlt. lia.
    + destruct (has_char "@" arg) eqn:Ha.
      * destruct (split_once_spec "@" arg Ha) as (u & al & E & Earg & _).
        rewrite E. cbn [unpack2]. apply (Hfin None u al). exact Earg.
      * right. eexists. reflexivity.
  - intros Ha. unfold org_prefixed. rewrite Ha, andb_false_r. reflexivity.
Qed.

(** ** The authentication check *)

Lemma prefix_spec (n h : string) :
  prefix n h = true <-> exists b, h = n ++ b.
Proof.
  revert h. induction n as [|c n IH]; intros h.
  - destruct h; cbn; split; eauto.
  - destruct h as [|d h]; cbn [prefix].
    + split; [discriminate | intros (b & E); discriminate E].
    + destruct (ascii_dec c d) as [->|Hne].
      * rewrite IH. split; intros (b & E); exists b.
        -- now rewrite E.
        -- now injection E.
      * split; [discriminate|]. intros (b & E). injection E as E1 E2. congruence.
Qed.

Lemma contains_prefix (n h : string) : prefix n h = true -> contains n h = true.
Proof. intros H. destruct h; cbn [contains]; now rewrite H. Qed.

Lemma contains_spec (n h : string) :
  contains n h = true <-> exists a b, h = a ++ n ++ b.
Proof.
  split.
  - induction h as [|d h IH]; cbn [contains]; intros H.
    + rewrite orb_false_r in H. apply prefix_spec in H. destruct H as (b & E).
      exists "", b. exact E.
    + apply orb_true_iff in H. destruct H as [H|H].
      * apply prefix_spec in H. destruct H as (b & E). exists "", b. exact E.
      * destruct (IH H) as (a & b & ->). exists (String d a), b. reflexivity.
  - intros (a & b & ->). induction a as [|d a IH].
    + apply contains_prefix, prefix_spec. exists b. reflexivity.
    + cbn [append contains]. rewrite IH. apply orb_true_r.
Qed.

(** X25.  The authentication check runs one command, [ssh -T git@alias],
    outside any directory and with a limit of 12 seconds, and no other.
    Its verdict does not depend on the exit code.  It returns only when the
    greeting of the user stands somewhere in the captured output or in the
    captured error text; when the greeting stands in neither, the check
    does not return: it ends in an exception. *)
Theorem ssh_check_verdict (user alias : string) t r :
  Runs (verify_ssh_access user alias) t r ->
  exists o rest,
    t = EvRun (ssh_command alias) None 12 o :: rest /\
    commands rest = [] /\
    (r = Returned tt -> greeted user o) /\
    (~ greeted user o -> exists e, r = Crashed e).
Proof.
  intros H. unfold verify_ssh_access, run_command in H. cbn [bind] in H.
  inv H.
  match goal with
  | Hk : Runs _ _ _ |- _ => rewrite (result_of_eta o) in Hk; cbv beta iota zeta in Hk
  end.
  fold (captured_out o) in *. fold (captured_err o) in *.
  destruct (contains (ssh_greeting user) (captured_out o)) eqn:Eo.
  - runs_inv. do 2 eexists. split; [reflexivity|]. split; [reflexivity|].
    split.
    + intros _. left. now apply contains_spec.
    + intros Hn. exfalso. apply Hn. left. now apply contains_spec.
  - destruct (contains (ssh_greeting user) (captured_err o)) eqn:Ee.
    + runs_inv. do 2 eexists. split; [reflexivity|]. split; [reflexivity|].
      split.
      * intros _. right. now apply contains_spec.
      * intros Hn. exfalso. apply Hn. right. now apply contains_spec.
    + unfold fatal in *. runs_inv.
      do 2 eexists. split; [reflexivity|]. split; [reflexivity|]. split.
      * intros E. discriminate E.
      * intros _. eexists. reflexivity.
Qed.

Lemma ssh_check_verdict_witness :
  exists o rest,
    trace_in service_greets (verify_ssh_access "alice" "gh") tt
    = EvRun (ssh_command "gh") None 12 o :: rest /\
    commands rest = [] /\
    (result_in service_greets (verify_ssh_access "alice" "gh") tt = Returned tt ->
     greeted "alice" o) /\
    (~ greeted "alice" o ->
     exists e,
       result_in service_greets (verify_ssh_access "alice" "gh") tt = Crashed e).
Proof.
  exact (ssh_check_verdict "alice" "gh" _ _
           (interp_Runs service_greets (verify_ssh_access "alice" "gh") tt)).
Defined.

(** ** The listing *)

Lemma listing_loop_pages {Repo : Type}
    (requests_get : string -> ApiParams -> HttpOutcome Repo)
    (url type_ : string) (last : list Repo) (full : list (list Repo)) :
  forall (fuel : nat) (page : Z) (repos : list Repo),
    (forall i chunk, nth_error (full ++ [last])%list i = Some chunk ->
       exists reason text,
         requests_get url (mk_params 100 (page + Z.of_nat i) type_ "full_name")
         = Response 200 reason text (Some chunk)) ->
    Forall (fun c => (100 <= List.length c)%nat) full ->
    (List.length last < 100)%nat ->
    (List.length full < fuel)%nat ->
    listing_loop requests_get fuel url type_ page repos
    = Some ([], Returned (repos ++ List.concat full ++ last)%list).
Proof.
  induction full as [|c full IH]; intros fuel page repos Hp Hfull Hlast Hfuel.
  - destruct fuel as [|fuel]; [cbn in Hfuel; lia|].
    destruct (Hp O last eq_refl) as (reason & text & E).
    rewrite Z.add_0_r in E.
    cbn [listing_loop]. unfold github_api_request. rewrite E.
    cbn [Z.eqb Pos.eqb negb List.concat app].
    destruct last as [|x last]; [now rewrite app_nil_r|].
    assert (Hlt : (Z.of_nat (List.length (x :: last)) <? 100) = true)
      by (apply Z.ltb_lt; lia).
    now rewrite Hlt.
  - destruct fuel as [|fuel]; [cbn in Hfuel; lia|].
    destruct (Hp O c eq_refl) as (reason & text & E).
    rewrite Z.add_0_r in E.
    inversion Hfull as [|c' full' Hc Hfull']; subst.
    cbn [listing_loop]. unfold github_api_request. rewrite E.
    cbn [Z.eqb Pos.eqb negb].
    destruct c as [|x c]; [cbn in Hc; lia|].
    assert (Hge : (Z.of_nat (List.length (x :: c)) <? 100) = false)
      by (apply Z.ltb_ge; lia).
    rewrite Hge.
    rewrite (IH fuel (page + 1) (repos ++ x :: c)%list).
    + cbn [app List.concat]. now rewrite <- !app_assoc.
    + intros i chunk Hi. destruct (Hp (S i) chunk Hi) as (reason' & text' & E').
      exists reason', text'. rewrite <- E'. f_equal. f_equal. lia.
    + exact Hfull'.
    + exact Hlast.
    + cbn [List.length] in Hfuel. lia.
Qed.

Lemma get_github_repos_endpoint {Repo : Type}
    (requests_get : string -> ApiParams -> HttpOutcome Repo)
    (fuel : nat) (user : string) (org : option string) :
  get_github_repos requests_get fuel user org
  = listing_loop requests_get fuel (fst (endpoint user org))
      (snd (endpoint user org)) 1 [].
Proof.
  unfold get_github_repos, endpoint.
  destruct org as [o|]; [destruct (truthy o)|]; reflexivity.
Qed.

(** X26.  The listing gathers every page, in order.  When the service
    answers the requests for pages 1, 2, ... with status 200 and with
    chunks of which all but the last hold at least 100 entries and the
    last holds fewer (possibly none), the listing returns the chunks put
    end to end and prints nothing.  The requests go to the address of the
    organisation with type [all] when an organisation that is not empty is
    given, and to the address of the user with type [owner] otherwise. *)
Theorem listing_gathers_every_page {Repo : Type}
    (requests_get : string -> ApiParams -> HttpOutcome Repo)
    (user : string) (org : option string)
    (full : list (list Repo)) (last : list Repo) (fuel : nat) :
  (forall i chunk, nth_error (full ++ [last])%list i = Some chunk ->
     exists reason text,
       requests_get (fst (endpoint user org))
         (mk_params 100 (1 + Z.of_nat i) (snd (endpoint user org)) "full_name")
       = Response 200 reason text (Some chunk)) ->
  Forall (fun c => (100 <= List.length c)%nat) full ->
  (List.length last < 100)%nat ->
  (List.length full < fuel)%nat ->
  get_github_repos requests_get fuel user org
  = Some ([], Returned (List.concat full ++ last)%list).
Proof.
  intros Hp Hfull Hlast Hfuel.
  rewrite get_github_repos_endpoint.
  now rewrite (listing_loop_pages requests_get _ _ last full fuel 1 [] Hp Hfull
                 Hlast Hfuel).
Qed.

Lemma listing_gathers_every_page_witness :
  get_github_repos two_pages 2 "alice" None
  = Some ([], Returned (List.concat [repeat O 100] ++ [1%nat])%list).
Proof.
  apply (listing_gathers_every_page two_pages "alice" None [repeat O 100]
           [1%nat] 2).
  - intros i chunk H. destruct i as [|[|i]]; cbn [nth_error app] in H.
    + injection H as <-. exists "OK", "". reflexivity.
    + injection H as <-. exists "OK", "". reflexivity.
    + destruct i; discriminate H.
  - constructor; [rewrite repeat_length; apply le_n | constructor].
  - cbn. lia.
  - cbn. lia.
Defined.

Lemma listing_loop_failure {Repo : Type}
    (requests_get : string -> ApiParams -> HttpOutcome Repo)
    (url type_ : string) (full : list (list Repo)) :
  forall (fuel : nat) (page : Z) (repos : list Repo),
    (forall i chunk, nth_error full i = Some chunk ->
       exists reason text,
         requests_get url (mk_params 100 (page + Z.of_nat i) type_ "full_name")
         = Response 200 reason text (Some chunk)) ->
    Forall (fun c => (100 <= List.length c)%nat) full ->
    failing (requests_get url
               (mk_params 100 (page + Z.of_nat (List.length full)) type_
                  "full_name")) ->
    (List.length full < fuel)%nat ->
    exists msg,
      listing_loop requests_get fuel url type_ page repos
      = Some ([fatal_line msg], Crashed "SystemExit(1)").
Proof.
  induction full as [|c full IH]; intros fuel page repos Hp Hfull Hfail Hfuel.
  - destruct fuel as [|fuel]; [cbn in Hfuel; lia|].
    cbn [List.length Z.of_nat] in Hfail. rewrite Z.add_0_r in Hfail.
    cbn [listing_loop]. unfold github_api_request.
    destruct (requests_get url (mk_params 100 page type_ "full_name"))
      as [code reason text json|e]; cbn [failing] in Hfail.
    + apply Z.eqb_neq in Hfail. rewrite Hfail. cbn [negb].
      eexists. reflexivity.
    + eexists. reflexivity.
  - destruct fuel as [|fuel]; [cbn in Hfuel; lia|].
    destruct (Hp O c eq_refl) as (reason & text & E).
    rewrite Z.add_0_r in E.
    inversion Hfull as [|c' full' Hc Hfull']; subst.
    destruct (IH fuel (page + 1) (repos ++ c)%list) as (msg & Emsg).
    + intros i chunk Hi. destruct (Hp (S i) chunk Hi) as (reason' & text' & E').
      exists reason', text'. rewrite <- E'. f_equal. f_equal. lia.
    + exact Hfull'.
    + replace (page + 1 + Z.of_nat (List.length full))
        with (page + Z.of_nat (List.length (c :: full)))
        by (cbn [List.length]; lia).
      exact Hfail.
    + cbn [List.length] in Hfuel. lia.
    + exists msg.
      cbn [listing_loop]. unfold github_api_request. rewrite E.
      cbn [Z.eqb Pos.eqb negb].
      destruct c as [|x c]; [cbn in Hc; lia|].
      assert (Hge : (Z.of_nat (List.length (x :: c)) <? 100) = false)
        by (apply Z.ltb_ge; lia).
      rewrite Hge. unfold github_api_request in Emsg. rewrite Emsg. reflexivity.
Qed.

(** X27.  One failing request aborts the whole listing.  When the pages
    before it were full, and the next request ends in an exception or in a
    status other than 200, the listing does not return: it ends in an
    exception, and what the earlier pages gave is lost. *)
Theorem listing_aborts_on_failure {Repo : Type}
    (requests_get : string -> ApiParams -> HttpOutcome Repo)
    (user : string) (org : option string)
    (full : list (list Repo)) (fuel : nat) :
  (forall i chunk, nth_error full i = Some chunk ->
     exists reason text,
       requests_get (fst (endpoint user org))
         (mk_params 100 (1 + Z.of_nat i) (snd (endpoint user org)) "full_name")
       = Response 200 reason text (Some chunk)) ->
  Forall (fun c => (100 <= List.length c)%nat) full ->
  failing (requests_get (fst (endpoint user org))
             (mk_params 100 (1 + Z.of_nat (List.length full))
                (snd (endpoint user org)) "full_name")) ->
  (List.length full < fuel)%nat ->
  exists printed e,
    get_github_repos requests_get fuel user org = Some (printed, Crashed e).
Proof.
  intros Hp Hfull Hfail Hfuel.
  rewrite get_github_repos_endpoint.
  destruct (listing_loop_failure requests_get _ _ full fuel 1 [] Hp Hfull Hfail
              Hfuel) as (msg & ->).
  do 2 eexists. reflexivity.
Qed.

Lemma listing_aborts_on_failure_witness :
  exists printed e,
    get_github_repos second_page_fails 5 "alice" (Some "Acme")
    = Some (printed, Crashed e).
Proof.
  apply (listing_aborts_on_failure second_page_fails "alice" (Some "Acme")
           [repeat O 100] 5).
  - intros i chunk H. destruct i as [|i]; cbn [nth_error] in H.
    + injection H as <-. exists "OK", "". reflexivity.
    + destruct i; discriminate H.
  - constructor; [rewrite repeat_length; apply le_n | constructor].
  - cbn. discriminate.
  - cbn. lia.
Defined.
